(** * smartap capture analysis tools: a shallow embedding

    Two scripts are embedded here:
    - [tools/decode_40byte_message.py], whose header block (lines 26-39)
      splits one raw buffer into sync, version, message id, length and
      payload (module [Decode40]);
    - [tools/analyze_message_inventory.py], whose [main] collects capture
      records, groups them by [payload_length] and reports per-length
      statistics and the envelope search (module [Inventory]).

    Python values are modelled as follows: [bytes] as [list byte], [str]
    as [string], [int] as [Z], a [defaultdict(list)] keyed by integers as
    a [gmap Z (list _)], a [Counter] as an association list in insertion
    order (the order [most_common] breaks ties with), and an exception as
    the [Raise] case of [result]. *)

From Stdlib Require Import ZArith List Lia Permutation.
From Stdlib Require Import Strings.Ascii Strings.String Strings.Byte.
From stdpp Require Import gmap strings list fin_maps sorting.

#[local] Set Warnings "-clear-no-such-hyp".

(** ** Exceptions and results *)

(** The first three constructors are the Python exceptions the embedded
    code can raise ([struct.error] is [StructError]).  The last three are
    the decode errors the specification names; no path of the scripts
    constructs them (see [decode_raises]). *)
Inductive error : Type :=
  | IndexError
  | StructError
  | ValueError
  | TooShort
  | BadSync
  | LengthMismatch (declared actual : Z).

Inductive result (A : Type) : Type :=
  | Ok (a : A)
  | Raise (e : error).
Arguments Ok {A} a.
Arguments Raise {A} e.

(** Sequencing: the first exception raised ends the block. *)
#[global] Instance result_bind : MBind result := fun A B k r =>
  match r with
  | Ok a => k a
  | Raise e => Raise e
  end.

(** ** Python primitives on bytes *)

Module Py.

(** [data[i]] on a [bytes] object, for a non-negative literal index. *)
Definition index (data : list byte) (i : nat) : result byte :=
  match data !! i with
  | Some b => Ok b
  | None => Raise IndexError
  end.

(** [data[a:b]] and [data[a:]]: slices are clamped to the buffer. *)
Definition slice (data : list byte) (a b : nat) : list byte :=
  take (b - a)%nat (drop a data).

Definition slice_from (data : list byte) (a : nat) : list byte :=
  drop a data.

Definition byte_val (b : byte) : Z := Z.of_N (Byte.to_N b).

(** Little-endian unsigned value of a byte string. *)
Fixpoint le_uint (bs : list byte) : Z :=
  match bs with
  | [] => 0
  | b :: rest => byte_val b + 256 * le_uint rest
  end%Z.

(** [struct.unpack(fmt, buf)[0]] for a format of one unsigned
    little-endian field of [size] bytes: [struct.error] unless the buffer
    has exactly that size. *)
Definition unpack_le (size : nat) (buf : list byte) : result Z :=
  if (List.length buf =? size)%nat then Ok (le_uint buf) else Raise StructError.

(** ['<I'] and ['<H']. *)
Definition unpack_I : list byte -> result Z := unpack_le 4.
Definition unpack_H : list byte -> result Z := unpack_le 2.

(** [bytes.fromhex]. *)
Definition is_space (c : ascii) : bool :=
  let n := N_of_ascii c in
  ((n =? 32) || ((9 <=? n) && (n <=? 13)))%N.

Definition hex_digit (c : ascii) : option N :=
  let n := N_of_ascii c in
  if ((48 <=? n) && (n <=? 57))%N then Some (n - 48)%N
  else if ((97 <=? n) && (n <=? 102))%N then Some (n - 87)%N
  else if ((65 <=? n) && (n <=? 70))%N then Some (n - 55)%N
  else None.

Definition byte_of_N (n : N) : byte :=
  match Byte.of_N n with
  | Some b => b
  | None => x00
  end.

Fixpoint fromhex (s : string) : result (list byte) :=
  match s with
  | EmptyString => Ok []
  | String c s1 =>
      if is_space c then fromhex s1
      else
        match hex_digit c, s1 with
        | Some hi, String d s2 =>
            match hex_digit d with
            | Some lo =>
                rest ← fromhex s2;
                Ok (byte_of_N (16 * hi + lo) :: rest)
            | None => Raise ValueError
            end
        | _, _ => Raise ValueError
        end
  end.

(** [bytes.hex()]: two lower-case digits per byte. *)
Definition hex_char (n : N) : ascii :=
  match n with
  | 0 => "0" | 1 => "1" | 2 => "2" | 3 => "3" | 4 => "4" | 5 => "5"
  | 6 => "6" | 7 => "7" | 8 => "8" | 9 => "9" | 10 => "a" | 11 => "b"
  | 12 => "c" | 13 => "d" | 14 => "e" | _ => "f"
  end%N%char.

Definition hex_byte (b : byte) : string :=
  String (hex_char (Byte.to_N b / 16)) (String (hex_char (Byte.to_N b mod 16)) EmptyString).

Fixpoint hex (bs : list byte) : string :=
  match bs with
  | [] => EmptyString
  | b :: rest => hex_byte b +:+ hex rest
  end.

(** [for i in range(count): buf[start + i]]. *)
Fixpoint index_range (buf : list byte) (start count : nat) : result (list byte) :=
  match count with
  | O => Ok []
  | S n =>
      b ← index buf start;
      rest ← index_range buf (S start) n;
      Ok (b :: rest)
  end.

End Py.

(** ** tools/decode_40byte_message.py *)

Module Decode40.
Import Py.

(** The one and only 40-byte pattern. *)
Definition hex_data : string :=
  "7e03ffffff0f1e0001110f0000000800008055030000507d6dca1200000000000000000000000029".

Definition data : result (list byte) := fromhex hex_data.

(** What the header block binds: [data[0]], [data[1]], [msg_id],
    [length] and [payload]. *)
Record Frame : Type := mkFrame {
  sync : byte;
  version : byte;
  msg_id : Z;
  length : Z;
  payload : list byte
}.

(** Lines 27-38, with the buffer as a parameter.  The reads happen in
    source order: [data[0]], [data[1]], the two [struct.unpack] calls on
    slices, then the payload slice. *)
Definition decode (data : list byte) : result Frame :=
  sync ← index data 0;
  version ← index data 1;
  msg_id ← unpack_I (slice data 2 6);
  length ← unpack_H (slice data 6 8);
  let payload := slice_from data 8 in
  Ok (mkFrame sync version msg_id length payload).

(** The script itself: the block applied to the hard-coded buffer. *)
Definition script : result Frame := d ← data; decode d.

(** What lines 43-69 read: the payload bytes the script prints, under
    the absolute offsets it prints them with, and the trailing byte. *)
Record PayloadView : Type := mkView {
  message_type : byte;
  field_1 : byte;
  field_2 : byte;
  bytes_11_18 : list byte;
  nested_type : byte;
  nested_field_1 : byte;
  nested_field_2_3 : list byte;
  bytes_23_30 : list byte;
  possible_type : byte;
  last_byte : byte
}.

(** Lines 43-69, in source order: [payload[0]], [payload[1]],
    [payload[2]], [payload[3+i]] for [i] in [range(8)], [payload[11]],
    [payload[12]], [payload[13:15]], [payload[15+i]] for [i] in
    [range(8)], [payload[23]] and [data[39]]. *)
Definition payload_decoded (data payload : list byte) : result PayloadView :=
  t ← index payload 0;
  f1 ← index payload 1;
  f2 ← index payload 2;
  b11 ← index_range payload 3 8;
  nt ← index payload 11;
  n1 ← index payload 12;
  let n23 := slice payload 13 15 in
  b23 ← index_range payload 15 8;
  pt ← index payload 23;
  last ← index data 39;
  Ok (mkView t f1 f2 b11 nt n1 n23 b23 pt last).

(** Lines 26-69: the header block, then the payload block. *)
Definition breakdown (data : list byte) : result (Frame * PayloadView) :=
  f ← decode data;
  v ← payload_decoded data (payload f);
  Ok (f, v).

(** Modelled from the spec: the repository's sources under study hold no
    encoder.  The layout is the one of section 3 and 4.1 of the
    specification: 1 sync byte, 1 version byte, the 4-byte little-endian
    [message_id], the 2-byte little-endian [declared_length], then the
    payload. *)
Fixpoint le_bytes (width : nat) (z : Z) : list byte :=
  match width with
  | O => []
  | S w => byte_of_N (Z.to_N (z mod 256)) :: le_bytes w (z / 256)
  end.

(** Modelled from the spec: the encoder missing from the sources (see
    [le_bytes]). *)
Definition encode (f : Frame) : list byte :=
  sync f :: version f :: le_bytes 4 (msg_id f) ++ le_bytes 2 (length f) ++ payload f.

(** A frame as section 3 of the specification types it: fixed-width
    header fields and a payload of exactly [declared_length] bytes. *)
Definition frame_wf (f : Frame) : Prop :=
  (0 <= msg_id f < 2 ^ 32)%Z /\ (0 <= length f < 2 ^ 16)%Z /\
  Z.of_nat (List.length (payload f)) = length f.

End Decode40.

(** ** tools/analyze_message_inventory.py *)

Module Inventory.
Import Py.

(** One capture record, as [json.loads] returns it for a line of a
    capture file: [msg['payload_length']], [msg['payload_hex']] and
    [msg['message_num']]. *)
Record msg : Type := mkMsg {
  payload_length : Z;
  payload_hex : string;
  message_num : Z
}.

#[global] Instance msg_eq_dec : EqDecision msg.
Proof. solve_decision. Defined.

(** *** Lines 15-27: collecting the records *)

(** A line of a capture file, by what lines 22-24 do with it:
    [line.strip()] is empty, [json.loads(line)] returns a record, or
    [json.loads(line)] raises. *)
Inductive line : Type :=
  | Blank
  | Json (m : msg)
  | Invalid.

(** A capture file: its path, and its lines unless [open] raises. *)
Record capture_file : Type := mkFile {
  filepath : string;
  contents : option (list line)
}.

(** The body of the [try]: [all_messages] is appended to in place, so
    what was appended before an exception stays.  The boolean tells
    whether the body raised. *)
Fixpoint read_lines (ls : list line) (all_messages : list msg) : list msg * bool :=
  match ls with
  | [] => (all_messages, false)
  | Blank :: rest => read_lines rest all_messages
  | Json m :: rest => read_lines rest (all_messages ++ [m])
  | Invalid :: _ => (all_messages, true)
  end.

(** The state of the collecting loop: the records so far and the paths a
    warning was printed for. *)
Record collected : Type := mkCollected {
  all_messages : list msg;
  warnings : list string
}.

(** One iteration of [for filepath in files], with its [except]. *)
Definition read_file (st : collected) (f : capture_file) : collected :=
  match contents f with
  | None => mkCollected (all_messages st) (warnings st ++ [filepath f])
  | Some ls =>
      let '(msgs, raised) := read_lines ls (all_messages st) in
      mkCollected msgs (if raised then warnings st ++ [filepath f] else warnings st)
  end.

Definition collect (files : list capture_file) : collected :=
  foldl read_file (mkCollected [] []) files.

(** The records among some lines, in order. *)
Definition records (ls : list line) : list msg :=
  omap (fun l => match l with Json m => Some m | _ => None end) ls.

#[global] Instance line_eq_dec : EqDecision line.
Proof. solve_decision. Defined.


(** *** Lines 31-42: grouping by payload length *)

(** [by_length[k]] on the [defaultdict(list)]. *)
Definition getitem (by_length : gmap Z (list msg)) (k : Z) : list msg :=
  default [] (by_length !! k).

(** [by_length[length].append(msg)]. *)
Definition append_msg (by_length : gmap Z (list msg)) (m : msg) : gmap Z (list msg) :=
  <[payload_length m := getitem by_length (payload_length m) ++ [m]]> by_length.

Definition group_by_length (all_messages : list msg) : gmap Z (list msg) :=
  foldl append_msg ∅ all_messages.

(** [sorted(by_length.keys())]. *)
Definition sorted_keys (by_length : gmap Z (list msg)) : list Z :=
  merge_sort Z.le (map_to_list by_length).*1.

(** The rows of MESSAGE LENGTH DISTRIBUTION: [(length, count)]. *)
Definition length_distribution (by_length : gmap Z (list msg)) : list (Z * nat) :=
  (fun k => (k, List.length (getitem by_length k))) <$> sorted_keys by_length.

(** The number of records held by all buckets of the dictionary. *)
Definition held (by_length : gmap Z (list msg)) : nat :=
  sum_list_with (fun kv => List.length kv.2) (map_to_list by_length).

(** *** [collections.Counter] *)

(** A counter keeps its keys in insertion order. *)
Fixpoint counter_incr (k : string) (c : list (string * nat)) : list (string * nat) :=
  match c with
  | [] => [(k, 1%nat)]
  | (k', n) :: rest =>
      if String.eqb k k' then (k', S n) :: rest else (k', n) :: counter_incr k rest
  end.

Fixpoint counter_get (k : string) (c : list (string * nat)) : nat :=
  match c with
  | [] => 0%nat
  | (k', n) :: rest => if String.eqb k k' then n else counter_get k rest
  end.

(** [Counter(iterable)]. *)
Definition Counter (ks : list string) : list (string * nat) :=
  foldl (fun c k => counter_incr k c) [] ks.

(** [most_common()] is [sorted(items, key=count, reverse=True)]: a stable
    sort, so equal counts keep insertion order. *)
Fixpoint insert_desc (x : string * nat) (sorted : list (string * nat)) : list (string * nat) :=
  match sorted with
  | [] => [x]
  | y :: rest =>
      if (x.2 <? y.2)%nat then y :: insert_desc x rest else x :: y :: rest
  end.

Definition most_common (c : list (string * nat)) : list (string * nat) :=
  foldr insert_desc [] c.

(** [most_common(n)]. *)
Definition most_common_n (n : nat) (c : list (string * nat)) : list (string * nat) :=
  take n (most_common c).

(** *** Lines 48-84: the analysis of one length *)

(** [Counter([msg['payload_hex'] for msg in messages])]. *)
Definition hex_patterns (messages : list msg) : list (string * nat) :=
  Counter (payload_hex <$> messages).

Definition unique_count (messages : list msg) : nat :=
  List.length (hex_patterns messages).

(** Lines 59-64: the loop filling [first_bytes]. *)
Definition first_bytes (messages : list msg) : list (string * nat) :=
  foldl (fun fb m =>
           let hex_data := payload_hex m in
           if (2 <=? String.length hex_data)%nat
           then counter_incr (String.substring 0 2 hex_data) fb
           else fb)
        [] messages.

(** The keys that loop counts: the first two characters of every payload
    that has them. *)
Definition first_byte_keys (messages : list msg) : list string :=
  omap (fun m => if (2 <=? String.length (payload_hex m))%nat
                 then Some (String.substring 0 2 (payload_hex m)) else None)
       messages.

(** How often [k] occurs in a list of keys. *)
Definition occurrences_of (k : string) (ks : list string) : nat :=
  List.length (filter (fun x => x = k) ks).

(** One printed pattern: its rank, its count, the text shown, and the
    first byte when line 79 prints it. *)
Record pattern_entry : Type := mkEntry {
  idx : nat;
  occurrences : nat;
  shown : string;
  first_byte : option Z
}.

(** The text and count of each listed pattern. *)
Definition listed (entries : list pattern_entry) : list (string * nat) :=
  (fun e => (shown e, occurrences e)) <$> entries.

(** [enumerate(items, 1)]. *)
Fixpoint enumerate {A : Type} (start : nat) (items : list A) : list (nat * A) :=
  match items with
  | [] => []
  | x :: rest => (start, x) :: enumerate (S start) rest
  end.

(** Line 84: [hex_pattern[:80]] followed by ['...'] when it is longer. *)
Definition truncated (hex_pattern : string) : string :=
  String.substring 0 80 hex_pattern +:+
  (if (80 <? String.length hex_pattern)%nat then "..." else "").

Section Patterns.

(** [int(s, 16)] is Python's; it is a parameter here.  What the results
    below need of it is [int16_hex]. *)
Variable int16 : string -> result Z.

(** Lines 73-79: one pattern of the full list. *)
Definition full_entry (e : nat * (string * nat)) : result pattern_entry :=
  let '(i, (hex_pattern, count)) := e in
  if (2 <=? String.length hex_pattern)%nat
  then fb ← int16 (String.substring 0 2 hex_pattern);
       Ok (mkEntry i count hex_pattern (Some fb))
  else Ok (mkEntry i count hex_pattern None).

(** Lines 82-84: one pattern of the top 5. *)
Definition top_entry (e : nat * (string * nat)) : pattern_entry :=
  let '(i, (hex_pattern, count)) := e in
  mkEntry i count (truncated hex_pattern) None.

(** A [for] loop whose body may raise. *)
Fixpoint for_each {A B : Type} (body : A -> result B) (items : list A) : result (list B) :=
  match items with
  | [] => Ok []
  | x :: rest =>
      y ← body x;
      ys ← for_each body rest;
      Ok (y :: ys)
  end.

(** Lines 71-84: the listed patterns of one length. *)
Definition list_patterns (messages : list msg) : result (list pattern_entry) :=
  let hex_patterns := hex_patterns messages in
  let unique_count := List.length hex_patterns in
  if (unique_count <=? 10)%nat
  then for_each full_entry (enumerate 1 (most_common hex_patterns))
  else Ok (top_entry <$> enumerate 1 (most_common_n 5 hex_patterns)).

End Patterns.

(** The value of two hex digits. *)
Definition hex_pair (s : string) : result Z :=
  match s with
  | String a (String b EmptyString) =>
      match hex_digit a, hex_digit b with
      | Some hi, Some lo => Ok (Z.of_N (16 * hi + lo))
      | _, _ => Raise ValueError
      end
  | _ => Raise ValueError
  end.

(** What is assumed of [int(s, 16)]: on two hex digits it returns their
    value. *)
Definition int16_hex (int16 : string -> result Z) : Prop :=
  forall a b hi lo,
    hex_digit a = Some hi -> hex_digit b = Some lo ->
    int16 (String a (String b EmptyString)) = Ok (Z.of_N (16 * hi + lo)).

(** A hex-encoded payload: hex digits only. *)
Fixpoint is_hex (s : string) : bool :=
  match s with
  | EmptyString => true
  | String c rest => bool_decide (is_Some (hex_digit c)) && is_hex rest
  end.

(** *** Lines 118-130: the envelope search *)

Definition is_envelope (m : msg) : bool :=
  let hex_data := payload_hex m in
  if (20 <=? String.length hex_data)%nat then
    if String.prefix "7e03" hex_data then
      let payload_start := 16%nat in
      if (payload_start <? String.length hex_data)%nat then
        let msg_type := String.substring payload_start 2 hex_data in
        if String.eqb msg_type "01" then true else false
      else false
    else false
  else false.

Definition envelope_messages (all_messages : list msg) : list msg :=
  foldl (fun found m => if is_envelope m then found ++ [m] else found) [] all_messages.

(** *** Lines 90-112: the 77-byte messages *)

Inductive verdict_77 : Type :=
  | AllIdentical (hex : option string) (msg_nums : list Z) (all_first : bool)
  | Differing (patterns : gset string).

(** What the section prints: the number of 77-byte records, the number
    of unique patterns, and either the one pattern ([list(s)[0]]) with
    the message numbers and whether all are 1, or the set of patterns. *)
Record special_77 : Type := mkSpecial {
  found_77 : nat;
  unique_77 : nat;
  verdict : verdict_77
}.

Definition special_interest_77 (by_length : gmap Z (list msg)) : option special_77 :=
  match by_length !! 77%Z with
  | None => None
  | Some msgs_77 =>
      let hex_patterns_77 : gset string := list_to_set (payload_hex <$> msgs_77) in
      Some (mkSpecial (List.length msgs_77) (size hex_patterns_77)
              (if decide (size hex_patterns_77 = 1%nat)
               then
                 let msg_nums := message_num <$> msgs_77 in
                 AllIdentical (head (elements hex_patterns_77)) msg_nums
                              (forallb (fun n => (n =? 1)%Z) msg_nums)
               else Differing hex_patterns_77))
  end.

(** *** Lines 132-154: the envelope messages by length *)

(** One example: its length, the full payload, and, for a payload of at
    least 40 characters, [hex_data[16:40]] and [hex_data[36:38]]. *)
Record envelope_example : Type := mkExample {
  ex_length : Z;
  ex_full : string;
  ex_detail : option (string * string)
}.

(** Lines 147-154, for one length: [env_by_length[length][0]]. *)
Definition envelope_example_of (env_by_length : gmap Z (list msg)) (length : Z)
    : result envelope_example :=
  match getitem env_by_length length with
  | [] => Raise IndexError
  | msg :: _ =>
      let hex_data := payload_hex msg in
      Ok (mkExample length hex_data
            (if (40 <=? String.length hex_data)%nat
             then Some (String.substring 16 24 hex_data, String.substring 36 2 hex_data)
             else None))
  end.

Record envelope_report : Type := mkEnvelopeReport {
  env_found : nat;
  env_lengths : list (Z * nat);
  env_examples : list envelope_example
}.

(** Lines 132-154: nothing but the count is printed when there is no
    envelope message. *)
Definition envelope_section (all_messages : list msg) : result envelope_report :=
  let envelope_messages := envelope_messages all_messages in
  match envelope_messages with
  | [] => Ok (mkEnvelopeReport 0 [] [])
  | _ :: _ =>
      let env_by_length := group_by_length envelope_messages in
      examples ← for_each (envelope_example_of env_by_length)
                          (take 3 (sorted_keys env_by_length));
      Ok (mkEnvelopeReport (List.length envelope_messages)
            (length_distribution env_by_length) examples)
  end.

End Inventory.

(** ** The frame checks of the specification *)

(** These follow the words of the specification (sections 3 and 4.1), not
    the code: the scripts perform none of these checks.  They say which
    records the specification calls malformed. *)
Module Spec.
Import Py.

Definition header_size : nat := 8.

(** The sync marker: ["Sync byte (expected 0x7e)"]. *)
Definition sync_marker : byte := "~"%byte.

Definition bad_sync (raw : list byte) : Prop :=
  (header_size <= List.length raw)%nat /\ raw !! 0%nat <> Some sync_marker.

Definition length_mismatch (raw : list byte) : Prop :=
  (header_size <= List.length raw)%nat /\
  le_uint (slice raw 6 8) <> (Z.of_nat (List.length raw) - Z.of_nat header_size)%Z.

(** A record whose frame the specification's decoder rejects with
    [BadSync] or [LengthMismatch]. *)
Definition malformed (m : Inventory.msg) : Prop :=
  exists raw, fromhex (Inventory.payload_hex m) = Ok raw /\
              (bad_sync raw \/ length_mismatch raw).

End Spec.

(** * Results *)

(** ** The header block of decode_40byte_message.py *)

Section DecodeFacts.
Import Py.

Lemma byte_val_range (b : byte) : (0 <= byte_val b < 256)%Z.
Proof.
  unfold byte_val. pose proof (Byte.to_N_bounded b). lia.
Qed.

Lemma byte_val_of_N (n : N) : (n < 256)%N -> byte_val (byte_of_N n) = Z.of_N n.
Proof.
  intros Hn. unfold byte_val, byte_of_N.
  destruct (Byte.of_N n) as [b|] eqn:Hb.
  - apply Byte.to_of_N in Hb. by rewrite Hb.
  - apply Byte.of_N_None_iff in Hb. lia.
Qed.

Lemma byte_of_N_val (b : byte) : byte_of_N (Byte.to_N b) = b.
Proof. unfold byte_of_N. by rewrite Byte.of_to_N. Qed.

Lemma le_bytes_length (w : nat) (z : Z) : List.length (Decode40.le_bytes w z) = w.
Proof. revert z. induction w as [|w IH]; intros z; simpl; [done | by rewrite IH]. Qed.

Lemma le_uint_le_bytes (w : nat) (z : Z) :
  le_uint (Decode40.le_bytes w z) = (z mod 256 ^ Z.of_nat w)%Z.
Proof.
  revert z. induction w as [|w IH]; intros z.
  - simpl. by rewrite Z.mod_1_r.
  - cbn [Decode40.le_bytes le_uint]. rewrite IH, byte_val_of_N.
    + rewrite Z2N.id by (apply Z.mod_pos_bound; lia).
      rewrite Nat2Z.inj_succ, Z.pow_succ_r by lia.
      rewrite Z.rem_mul_r; [done | lia | apply Z.pow_pos_nonneg; lia].
    + pose proof (Z.mod_pos_bound z 256). lia.
Qed.

Lemma le_uint_range (bs : list byte) :
  (0 <= le_uint bs < 256 ^ Z.of_nat (List.length bs))%Z.
Proof.
  induction bs as [|b bs IH].
  - simpl. lia.
  - cbn [le_uint List.length]. rewrite Nat2Z.inj_succ, Z.pow_succ_r by lia.
    pose proof (byte_val_range b). lia.
Qed.

(** The block raises nothing but [IndexError] and [struct.error]. *)
Lemma decode_raises (data : list byte) (e : error) :
  Decode40.decode data = Raise e -> e = IndexError \/ e = StructError.
Proof.
  unfold Decode40.decode, index, unpack_I, unpack_H, unpack_le, mbind, result_bind.
  repeat case_match; intros; simplify_eq; auto.
Qed.

(** A buffer of at least 8 bytes always decodes, to these fields. *)
Lemma decode_ok (data : list byte) :
  (8 <= List.length data)%nat ->
  exists s v,
    data !! 0%nat = Some s /\ data !! 1%nat = Some v /\
    Decode40.decode data =
      Ok (Decode40.mkFrame s v (le_uint (slice data 2 6)) (le_uint (slice data 6 8))
            (drop 8 data)).
Proof.
  intros Hlen.
  do 8 (destruct data as [|? data]; [simpl in Hlen; lia|]).
  eexists _, _. repeat split.
Qed.

(** C1, as the code has it: on every buffer shorter than the 8-byte
    header the block fails, with [IndexError] when the buffer has fewer
    than 2 bytes ([data[0]] or [data[1]]) and with [struct.error]
    otherwise (a clamped slice is too short for [unpack]); it has no
    [TooShort] error. *)
Theorem decode_short_buffer (data : list byte) :
  (List.length data < 8)%nat ->
  Decode40.decode data =
    Raise (if (List.length data <? 2)%nat then IndexError else StructError).
Proof.
  intros Hlen.
  do 8 (destruct data as [|? data]; [reflexivity|]).
  simpl in Hlen. lia.
Qed.

Lemma decode_short_buffer_witness :
  (3 < 8)%nat /\ Decode40.decode ["~"%byte; x03; xff] = Raise StructError.
Proof.
  split; [lia|].
  exact (decode_short_buffer ["~"%byte; x03; xff] ltac:(simpl; lia)).
Defined.

(** C1, as stated, fails on the empty buffer: the error is [IndexError],
    not [TooShort]. *)
Lemma decode_empty_not_TooShort :
  (List.length (@nil byte) < 8)%nat /\
  Decode40.decode [] = Raise IndexError /\
  Decode40.decode [] <> Raise TooShort.
Proof. split; [simpl; lia|]. split; [reflexivity | discriminate]. Qed.

(** C2, as the code has it: a buffer of at least 8 bytes whose length
    field differs from the number of bytes after the header still
    decodes.  The frame carries the declared length (bytes 6-7,
    little-endian) and the whole remainder [data[8:]] as payload, so both
    lengths are there and differ, and header and payload together are the
    input: nothing is discarded, and no [LengthMismatch] is raised. *)
Theorem decode_length_unchecked (data : list byte) :
  (8 <= List.length data)%nat ->
  le_uint (slice data 6 8) <> (Z.of_nat (List.length data) - 8)%Z ->
  exists f,
    Decode40.decode data = Ok f /\
    Decode40.length f = le_uint (slice data 6 8) /\
    Z.of_nat (List.length (Decode40.payload f)) = (Z.of_nat (List.length data) - 8)%Z /\
    Decode40.length f <> Z.of_nat (List.length (Decode40.payload f)) /\
    data = take 8 data ++ Decode40.payload f.
Proof.
  intros Hlen Hne.
  destruct (decode_ok data Hlen) as (s & v & _ & _ & Hdec).
  eexists. split; [exact Hdec|]. cbn [Decode40.length Decode40.payload].
  assert (Z.of_nat (List.length (drop 8 data)) = (Z.of_nat (List.length data) - 8)%Z)
    as Hpay by (rewrite length_drop; lia).
  repeat split; [exact Hpay | by rewrite Hpay | by rewrite take_drop].
Qed.

Lemma decode_length_unchecked_witness :
  exists f,
    Decode40.decode ["~"%byte; x03; x01; x00; x00; x00; x00; x00; x2a] = Ok f /\
    Decode40.length f = 0%Z /\ Decode40.payload f = [x2a].
Proof.
  destruct (decode_length_unchecked
              ["~"%byte; x03; x01; x00; x00; x00; x00; x00; x2a]
              ltac:(simpl; lia) ltac:(vm_compute; discriminate))
    as (f & Hdec & Hlen & _).
  exists f. split; [exact Hdec|]. split; [exact Hlen|].
  vm_compute in Hdec. by injection Hdec as <-.
Defined.

(** C2, as stated, fails on a 9-byte buffer whose length field is 0: the
    block returns a frame instead of raising [LengthMismatch 0 1]. *)
Lemma decode_mismatch_not_raised :
  let raw := ["~"%byte; x03; x01; x00; x00; x00; x00; x00; x2a] in
  (8 <= List.length raw)%nat /\
  le_uint (slice raw 6 8) = 0%Z /\
  (Z.of_nat (List.length raw) - 8)%Z = 1%Z /\
  Decode40.decode raw = Ok (Decode40.mkFrame "~"%byte x03 1 0 [x2a]) /\
  Decode40.decode raw <> Raise (LengthMismatch 0 1).
Proof. cbv zeta. repeat split; try reflexivity; [simpl; lia | discriminate]. Qed.

(** The script's own buffer is such a frame: its length field says 30
    while 32 bytes follow the header. *)
Example script_length_field :
  exists d f,
    Decode40.data = Ok d /\ List.length d = 40%nat /\
    Decode40.script = Ok f /\
    Decode40.msg_id f = 268435455%Z /\
    Decode40.length f = 30%Z /\
    List.length (Decode40.payload f) = 32%nat.
Proof. eexists _, _. repeat split. Qed.

(** C8: a frame whose header fields fit their widths and whose payload
    has exactly [declared_length] bytes is decoded back from its
    encoding. *)
Theorem decode_encode (f : Decode40.Frame) :
  Decode40.frame_wf f -> Decode40.decode (Decode40.encode f) = Ok f.
Proof.
  intros (Hid & Hlen & _). destruct f as [s v i l p]. simpl in Hid, Hlen.
  unfold Decode40.encode. cbn [Decode40.sync Decode40.version Decode40.msg_id
    Decode40.length Decode40.payload].
  pose proof (le_bytes_length 4 i) as L4. pose proof (le_bytes_length 2 l) as L2.
  pose proof (le_uint_le_bytes 4 i) as V4. pose proof (le_uint_le_bytes 2 l) as V2.
  rewrite Z.mod_small in V4 by (change (256 ^ Z.of_nat 4)%Z with (2 ^ 32)%Z; lia).
  rewrite Z.mod_small in V2 by (change (256 ^ Z.of_nat 2)%Z with (2 ^ 16)%Z; lia).
  destruct (Decode40.le_bytes 4 i) as [|a0 [|a1 [|a2 [|a3 [|? ?]]]]]; try discriminate L4.
  destruct (Decode40.le_bytes 2 l) as [|c0 [|c1 [|? ?]]]; try discriminate L2.
  unfold Decode40.decode, unpack_I, unpack_H, unpack_le, mbind, result_bind.
  cbn -[le_uint]. rewrite V4, take_0, drop_0. cbn -[le_uint]. by rewrite V2.
Qed.

Lemma decode_encode_witness :
  Decode40.decode (Decode40.encode (Decode40.mkFrame "~"%byte x03 7 2 [x01; x29])) =
  Ok (Decode40.mkFrame "~"%byte x03 7 2 [x01; x29]).
Proof.
  apply decode_encode. unfold Decode40.frame_wf. simpl. lia.
Defined.

End DecodeFacts.

(** ** Grouping by payload length *)

Section GroupingFacts.
Import Inventory.

Lemma getitem_append_msg (by_length : gmap Z (list msg)) (m : msg) (k : Z) :
  getitem (append_msg by_length m) k =
  if decide (payload_length m = k) then getitem by_length k ++ [m]
  else getitem by_length k.
Proof.
  unfold append_msg, getitem at 1. rewrite lookup_insert.
  destruct (decide (payload_length m = k)) as [->|]; done.
Qed.

Lemma getitem_foldl (msgs : list msg) (acc : gmap Z (list msg)) (k : Z) :
  getitem (foldl append_msg acc msgs) k =
  getitem acc k ++ filter (fun m => payload_length m = k) msgs.
Proof.
  revert acc. induction msgs as [|m msgs IH]; intros acc; simpl.
  - by rewrite app_nil_r.
  - rewrite IH, getitem_append_msg, filter_cons.
    destruct (decide (payload_length m = k)); [by rewrite <- app_assoc | done].
Qed.

(** A bucket holds the records with that [payload_length], in input
    order. *)
Lemma getitem_group (msgs : list msg) (k : Z) :
  getitem (group_by_length msgs) k = filter (fun m => payload_length m = k) msgs.
Proof. unfold group_by_length. by rewrite getitem_foldl. Qed.

Lemma dom_foldl (msgs : list msg) (acc : gmap Z (list msg)) :
  dom (foldl append_msg acc msgs) = dom acc ∪ list_to_set (payload_length <$> msgs).
Proof.
  revert acc. induction msgs as [|m msgs IH]; intros acc; simpl.
  - set_solver.
  - rewrite IH. unfold append_msg. rewrite dom_insert_L. set_solver.
Qed.

(** The keys are the payload lengths that occur. *)
Lemma dom_group (msgs : list msg) :
  dom (group_by_length msgs) = list_to_set (payload_length <$> msgs).
Proof. unfold group_by_length. rewrite dom_foldl. set_solver. Qed.

Lemma held_append_msg (by_length : gmap Z (list msg)) (m : msg) :
  held (append_msg by_length m) = S (held by_length).
Proof.
  unfold held, append_msg, getitem.
  destruct (by_length !! payload_length m) as [old|] eqn:Hk; simpl.
  - rewrite <- (insert_delete_id by_length (payload_length m) old Hk) at 2.
    rewrite <- insert_delete_eq.
    rewrite !map_to_list_insert by apply lookup_delete_eq.
    simpl. rewrite length_app. simpl. lia.
  - rewrite map_to_list_insert by done. simpl. done.
Qed.

Lemma held_foldl (msgs : list msg) (acc : gmap Z (list msg)) :
  held (foldl append_msg acc msgs) = (held acc + List.length msgs)%nat.
Proof.
  revert acc. induction msgs as [|m msgs IH]; intros acc; simpl.
  - lia.
  - rewrite IH, held_append_msg. lia.
Qed.

Lemma sum_list_fmap {A : Type} (f : A -> nat) (l : list A) :
  sum_list (f <$> l) = sum_list_with f l.
Proof. induction l as [|x l IH]; simpl; [done | by f_equal]. Qed.

Lemma sum_list_with_agree {A : Type} (f g : A -> nat) (l : list A) :
  (forall x, x ∈ l -> f x = g x) -> sum_list_with f l = sum_list_with g l.
Proof.
  induction l as [|x l IH]; intros Hfg; simpl; [done|].
  rewrite Hfg by left. rewrite IH; [done|]. intros y Hy. apply Hfg. by right.
Qed.

Lemma sorted_keys_perm (by_length : gmap Z (list msg)) :
  sorted_keys by_length ≡ₚ (map_to_list by_length).*1.
Proof. apply merge_sort_Permutation. Qed.

Lemma distribution_sum (by_length : gmap Z (list msg)) :
  sum_list (length_distribution by_length).*2 = held by_length.
Proof.
  unfold length_distribution, held.
  rewrite <- list_fmap_compose, sum_list_fmap.
  rewrite (sum_list_with_Permutation_proper _ _ _ (sorted_keys_perm by_length)).
  rewrite <- sum_list_fmap, <- list_fmap_compose, sum_list_fmap.
  apply sum_list_with_agree. intros [k v] Hin. simpl.
  apply elem_of_map_to_list in Hin. unfold getitem. by rewrite Hin.
Qed.

(** Every bucket count of the table adds up to the number of records. *)
Lemma distribution_total (msgs : list msg) :
  sum_list (length_distribution (group_by_length msgs)).*2 = List.length msgs.
Proof.
  rewrite distribution_sum. unfold group_by_length. rewrite held_foldl.
  unfold held. by rewrite map_to_list_empty.
Qed.

Lemma elem_of_sorted_keys (msgs : list msg) (k : Z) :
  k ∈ sorted_keys (group_by_length msgs) <-> exists m, m ∈ msgs /\ payload_length m = k.
Proof.
  rewrite sorted_keys_perm, list_elem_of_fmap. split.
  - intros ([k' v] & -> & Hin). apply elem_of_map_to_list, elem_of_dom_2 in Hin.
    rewrite dom_group, elem_of_list_to_set, list_elem_of_fmap in Hin.
    destruct Hin as (m & Hk & Hm). by exists m.
  - intros (m & Hm & <-).
    assert (payload_length m ∈ dom (group_by_length msgs)) as Hdom.
    { rewrite dom_group, elem_of_list_to_set, list_elem_of_fmap. by exists m. }
    apply elem_of_dom in Hdom as [v Hv].
    exists (payload_length m, v). split; [done|]. by apply elem_of_map_to_list.
Qed.

(** C10: the buckets partition the collected records by their
    [payload_length] field alone.  Bucket [k] is the sub-list of records
    whose [payload_length] is [k] (so a record is in bucket [k] exactly
    when [k] is its [payload_length]), the keys are the payload lengths
    that occur, and the bucket counts add up to the number of collected
    records.  [payload_hex] plays no part. *)
Theorem buckets_partition_by_payload_length (msgs : list msg) :
  (forall k, getitem (group_by_length msgs) k =
             filter (fun m => payload_length m = k) msgs) /\
  (forall m k, m ∈ getitem (group_by_length msgs) k <->
               m ∈ msgs /\ payload_length m = k) /\
  (forall k, k ∈ sorted_keys (group_by_length msgs) <->
             exists m, m ∈ msgs /\ payload_length m = k) /\
  sum_list (length_distribution (group_by_length msgs)).*2 = List.length msgs.
Proof.
  split; [apply getitem_group|].
  split; [|split; [apply elem_of_sorted_keys | apply distribution_total]].
  intros m k. rewrite getitem_group, list_elem_of_filter. naive_solver.
Qed.

(** A record whose [payload_length] is not half the length of its
    [payload_hex] is bucketed under [payload_length] all the same. *)
Example bucket_of_disagreeing_record :
  group_by_length [mkMsg 40 "7e03" 1; mkMsg 2 "7e03" 2] =
  {[ 40%Z := [mkMsg 40 "7e03" 1]; 2%Z := [mkMsg 2 "7e03" 2] ]}.
Proof. apply map_eq. intros k. vm_compute. reflexivity. Qed.

(** C3, as the code has it: a record the specification calls malformed
    (bad sync byte or mismatching length field) is bucketed like any
    other, under its own [payload_length] key and under no other key; the
    bucket counts add up to the number of collected records.  There is no
    [Malformed] key and no [ignored_count]. *)
Theorem malformed_bucketed_by_payload_length (msgs : list msg) (m : msg) :
  m ∈ msgs -> Spec.malformed m ->
  m ∈ getitem (group_by_length msgs) (payload_length m) /\
  (forall k, m ∈ getitem (group_by_length msgs) k -> k = payload_length m) /\
  sum_list (length_distribution (group_by_length msgs)).*2 = List.length msgs.
Proof.
  intros Hin _. split; [|split; [|apply distribution_total]].
  - rewrite getitem_group, list_elem_of_filter. done.
  - intros k. rewrite getitem_group, list_elem_of_filter. naive_solver.
Qed.

Lemma bad_sync_record_malformed : Spec.malformed (mkMsg 8 "ff03020000000000" 2).
Proof.
  eexists. split; [vm_compute; reflexivity|]. left.
  split; [unfold Spec.header_size; simpl; lia | discriminate].
Qed.

Lemma malformed_bucketed_by_payload_length_witness :
  let good := mkMsg 8 "7e03010000000000" 1 in
  let bad := mkMsg 8 "ff03020000000000" 2 in
  bad ∈ getitem (group_by_length [good; bad]) 8.
Proof.
  intros good bad.
  apply (malformed_bucketed_by_payload_length [good; bad] bad).
  - right. left.
  - apply bad_sync_record_malformed.
Defined.

(** C3, as stated, fails: a record with a bad sync byte lands in the
    ordinary bucket 8 next to a well-formed frame, and 8 is the only
    key. *)
Lemma malformed_shares_ordinary_bucket :
  let good := mkMsg 8 "7e03010000000000" 1 in
  let bad := mkMsg 8 "ff03020000000000" 2 in
  Spec.malformed bad /\ ~ Spec.malformed good /\
  group_by_length [good; bad] = {[ 8%Z := [good; bad] ]}.
Proof.
  intros good bad. split; [apply bad_sync_record_malformed|]. split.
  - intros (raw & Hraw & Hbad). vm_compute in Hraw. injection Hraw as <-.
    destruct Hbad as [[_ Hs]|[_ Hl]]; [by apply Hs | by apply Hl].
  - apply map_eq. intros k. vm_compute. reflexivity.
Qed.

(** C5: on a buffer of at least 8 bytes the block returns a frame whose
    [msg_id] is the little-endian value of bytes 2-5 and whose [length]
    is the little-endian value of bytes 6-7.  On the script's 40-byte
    buffer it returns message id 0x0fffffff, and a record carrying that
    payload with [payload_length] 40 lands in bucket 40. *)
Theorem decode_header_fields (data : list byte) :
  (8 <= List.length data)%nat ->
  (exists f b2 b3 b4 b5 b6 b7,
     Decode40.decode data = Ok f /\
     data !! 2%nat = Some b2 /\ data !! 3%nat = Some b3 /\
     data !! 4%nat = Some b4 /\ data !! 5%nat = Some b5 /\
     data !! 6%nat = Some b6 /\ data !! 7%nat = Some b7 /\
     Decode40.msg_id f =
       (Py.byte_val b2 + 256 * Py.byte_val b3 + 65536 * Py.byte_val b4 +
        16777216 * Py.byte_val b5)%Z /\
     Decode40.length f = (Py.byte_val b6 + 256 * Py.byte_val b7)%Z) /\
  (exists d f,
     Decode40.data = Ok d /\ List.length d = 40%nat /\
     Decode40.decode d = Ok f /\ Decode40.msg_id f = 268435455%Z /\
     forall msgs m,
       m ∈ msgs -> payload_hex m = Decode40.hex_data -> payload_length m = 40%Z ->
       m ∈ getitem (group_by_length msgs) 40).
Proof.
  intros Hlen. split.
  - do 8 (destruct data as [|? data]; [simpl in Hlen; lia|]).
    eexists _, _, _, _, _, _, _. repeat split.
    + cbn [Decode40.msg_id]. unfold Py.slice. simpl. lia.
    + cbn [Decode40.length]. unfold Py.slice. simpl. lia.
  - eexists _, _. repeat split.
    intros msgs m Hin _ Hk. rewrite getitem_group, list_elem_of_filter. done.
Qed.

Lemma decode_header_fields_witness :
  exists f,
    Decode40.decode ["~"%byte; x03; x01; x02; x00; x00; x05; x01] = Ok f /\
    Decode40.msg_id f = 513%Z /\ Decode40.length f = 261%Z.
Proof.
  destruct (decode_header_fields ["~"%byte; x03; x01; x02; x00; x00; x05; x01]
              ltac:(simpl; lia))
    as [(f & b2 & b3 & b4 & b5 & b6 & b7 & Hdec & H2 & H3 & H4 & H5 & H6 & H7 & Hid & Hl) _].
  exists f. split; [exact Hdec|].
  simpl in H2, H3, H4, H5, H6, H7. simplify_eq. split; [exact Hid | exact Hl].
Defined.

End GroupingFacts.

(** ** The envelope search *)

Section EnvelopeFacts.
Import Inventory.

Lemma prefix_iff (p s : string) :
  String.prefix p s = true <-> exists rest, s = p +:+ rest.
Proof.
  revert s. induction p as [|c p IH]; intros s.
  - split; [intros _; by exists s | intros _; by destruct s].
  - destruct s as [|a s]; [split; [done | intros [? ?]; done]|].
    cbn [String.prefix String.append].
    destruct (ascii_dec c a) as [->|Hne].
    + rewrite IH. split; intros [rest Hrest]; exists rest; [by rewrite Hrest|].
      by injection Hrest.
    + split; [done|]. intros [rest Hrest]. injection Hrest as Hc _. by symmetry in Hc.
Qed.

Lemma type_at_16 (s : string) :
  (20 <= String.length s)%nat ->
  String.substring 16 2 s = "01" <->
  String.get 16 s = Some "0"%char /\ String.get 17 s = Some "1"%char.
Proof.
  intros Hlen.
  do 19 (destruct s as [|? s]; [simpl in Hlen; lia|]).
  cbn [String.substring String.get]. destruct s; split.
  - intros [= -> ->]. done.
  - intros [[= ->] [= ->]]. done.
  - intros [= -> ->]. done.
  - intros [[= ->] [= ->]]. done.
Qed.

Lemma is_envelope_iff (m : msg) :
  is_envelope m = true <->
  (20 <= String.length (payload_hex m))%nat /\
  (exists rest, payload_hex m = "7e03" +:+ rest) /\
  String.get 16 (payload_hex m) = Some "0"%char /\
  String.get 17 (payload_hex m) = Some "1"%char.
Proof.
  unfold is_envelope. rewrite <- prefix_iff.
  destruct (20 <=? String.length (payload_hex m))%nat eqn:Hlen.
  - apply Nat.leb_le in Hlen. rewrite <- (type_at_16 _ Hlen).
    destruct (String.prefix "7e03" (payload_hex m)); [|naive_solver].
    destruct (16 <? String.length (payload_hex m))%nat eqn:Hlt;
      [|apply Nat.ltb_ge in Hlt; lia].
    destruct (String.eqb_spec (String.substring 16 2 (payload_hex m)) "01");
      naive_solver.
  - apply Nat.leb_gt in Hlen. split; [done|]. intros [? _]. lia.
Qed.

Lemma envelope_foldl (msgs found : list msg) :
  foldl (fun found m => if is_envelope m then found ++ [m] else found) found msgs =
  found ++ filter (fun m => is_envelope m = true) msgs.
Proof.
  revert found. induction msgs as [|m msgs IH]; intros found; simpl.
  - by rewrite app_nil_r.
  - rewrite IH, filter_cons. destruct (is_envelope m) eqn:He.
    + rewrite decide_True by done. by rewrite <- app_assoc.
    + rewrite decide_False by done. done.
Qed.

(** C9: the envelope matches are the records, in input order, whose
    [payload_hex] has at least 20 characters, starts with ["7e03"] and
    has ["01"] at offsets 16-17; no other record is a match. *)
Theorem envelope_search_spec (msgs : list msg) :
  envelope_messages msgs = filter (fun m => is_envelope m = true) msgs /\
  forall m,
    m ∈ envelope_messages msgs <->
    m ∈ msgs /\
    (20 <= String.length (payload_hex m))%nat /\
    (exists rest, payload_hex m = "7e03" +:+ rest) /\
    String.get 16 (payload_hex m) = Some "0"%char /\
    String.get 17 (payload_hex m) = Some "1"%char.
Proof.
  assert (envelope_messages msgs = filter (fun m => is_envelope m = true) msgs) as Heq.
  { unfold envelope_messages. by rewrite envelope_foldl. }
  split; [exact Heq|]. intros m.
  rewrite Heq, list_elem_of_filter, is_envelope_iff. naive_solver.
Qed.

(** A 9-byte frame whose payload byte 0 is 0x01, and a 10-byte frame
    that does not start with 7e 03, are not matches; a 10-byte frame with
    both marks is. *)
Example envelope_examples :
  envelope_messages
    [mkMsg 9 "7e030100000001000100" 1;
     mkMsg 9 "7e0301000000010001" 2;
     mkMsg 10 "7e020100000002000100" 3] =
  [mkMsg 9 "7e030100000001000100" 1].
Proof. reflexivity. Qed.

End EnvelopeFacts.

(** ** Collecting the records *)

Section CollectFacts.
Import Inventory.

Lemma read_lines_acc (ls : list line) (acc : list msg) :
  read_lines ls acc = (acc ++ (read_lines ls []).1, (read_lines ls []).2).
Proof.
  revert acc. induction ls as [|l ls IH]; intros acc; simpl.
  - by rewrite app_nil_r.
  - destruct l as [|m|]; simpl.
    + apply IH.
    + rewrite (IH (acc ++ [m])), (IH [m]). simpl. by rewrite <- app_assoc.
    + by rewrite app_nil_r.
Qed.


Lemma read_lines_invalid (pre post : list line) :
  Invalid ∉ pre -> read_lines (pre ++ Invalid :: post) [] = (records pre, true).
Proof.
  induction pre as [|l pre IH]; intros Hno; [done|].
  apply not_elem_of_cons in Hno as [Hl Hpre].
  destruct l as [|m|]; simpl; [by apply IH | | done].
  rewrite read_lines_acc, (IH Hpre). done.
Qed.

Lemma read_file_acc (st : collected) (f : capture_file) :
  read_file st f =
  mkCollected (all_messages st ++ all_messages (read_file (mkCollected [] []) f))
              (warnings st ++ warnings (read_file (mkCollected [] []) f)).
Proof.
  unfold read_file. destruct (contents f) as [ls|]; simpl.
  - rewrite (read_lines_acc ls (all_messages st)).
    destruct (read_lines ls []) as [msgs raised]. simpl.
    destruct raised; [done | by rewrite app_nil_r].
  - by rewrite app_nil_r.
Qed.

Lemma foldl_read_file (files : list capture_file) (st : collected) :
  foldl read_file st files =
  mkCollected (all_messages st ++ all_messages (collect files))
              (warnings st ++ warnings (collect files)).
Proof.
  unfold collect. revert st. induction files as [|f files IH]; intros st; simpl.
  - by rewrite !app_nil_r; destruct st.
  - rewrite (IH (read_file st f)), (IH (read_file _ f)), (read_file_acc st f).
    simpl. by rewrite !app_assoc.
Qed.

Lemma collect_app (files1 files2 : list capture_file) :
  collect (files1 ++ files2) =
  mkCollected (all_messages (collect files1) ++ all_messages (collect files2))
              (warnings (collect files1) ++ warnings (collect files2)).
Proof. unfold collect at 1. rewrite foldl_app. apply foldl_read_file. Qed.

Lemma collect_cons (f : capture_file) (files : list capture_file) :
  collect (f :: files) =
  mkCollected (all_messages (read_file (mkCollected [] []) f) ++ all_messages (collect files))
              (warnings (read_file (mkCollected [] []) f) ++ warnings (collect files)).
Proof. unfold collect at 1. simpl. apply foldl_read_file. Qed.

(** C4, as the code has it: a line [json.loads] rejects ends the reading
    of its file only.  The records of that file before the line are
    kept, the lines after it are skipped, one warning names the file, and
    the files before and after are read as if the line were not there.
    No count of skipped records is kept. *)
Theorem collect_isolates_per_file
    (files1 : list capture_file) (path : string) (pre post : list line)
    (files2 : list capture_file) :
  Invalid ∉ pre ->
  all_messages (collect (files1 ++ mkFile path (Some (pre ++ Invalid :: post)) :: files2)) =
    all_messages (collect files1) ++ records pre ++ all_messages (collect files2) /\
  warnings (collect (files1 ++ mkFile path (Some (pre ++ Invalid :: post)) :: files2)) =
    warnings (collect files1) ++ path :: warnings (collect files2).
Proof.
  intros Hpre. rewrite collect_app, collect_cons. unfold read_file. simpl.
  rewrite (read_lines_invalid pre post Hpre). done.
Qed.

Lemma collect_isolates_per_file_witness :
  let r1 := mkMsg 40 Decode40.hex_data 1 in
  let r2 := mkMsg 8 "7e03010000000000" 2 in
  let r3 := mkMsg 8 "7e03020000000000" 1 in
  all_messages (collect [mkFile "capture-1.jsonl" (Some [Json r1; Invalid; Json r2]);
                         mkFile "capture-2.jsonl" (Some [Blank; Json r3])]) = [r1; r3].
Proof.
  intros r1 r2 r3.
  apply (collect_isolates_per_file [] "capture-1.jsonl" [Json r1] [Json r2]
           [mkFile "capture-2.jsonl" (Some [Blank; Json r3])]).
  intros Hin. apply list_elem_of_singleton in Hin. discriminate Hin.
Defined.

(** C4, as stated, fails: the record on the line after an unreadable
    line of the same file is never collected. *)
Lemma record_after_invalid_line_lost :
  let r1 := mkMsg 40 Decode40.hex_data 1 in
  let r2 := mkMsg 8 "7e03010000000000" 2 in
  let run := collect [mkFile "capture-1.jsonl" (Some [Json r1; Invalid; Json r2])] in
  all_messages run = [r1] /\ (r2 ∉ all_messages run) /\
  warnings run = ["capture-1.jsonl"].
Proof.
  cbv zeta. split; [reflexivity|]. split; [|reflexivity].
  intros Hin. vm_compute in Hin. apply list_elem_of_singleton in Hin. discriminate Hin.
Qed.


End CollectFacts.

(** ** Counters *)

Section CounterFacts.
Import Inventory.

Lemma counter_get_incr (k k' : string) (c : list (string * nat)) :
  counter_get k (counter_incr k' c) =
  if decide (k = k') then S (counter_get k c) else counter_get k c.
Proof.
  induction c as [|[k0 n] c IH]; simpl.
  - destruct (String.eqb_spec k k'); case_decide; done.
  - destruct (String.eqb_spec k' k0) as [->|Hne]; simpl.
    + destruct (String.eqb_spec k k0); case_decide; done.
    + rewrite IH. destruct (String.eqb_spec k k0) as [->|]; [|done].
      by rewrite decide_False.
Qed.

Lemma keys_incr (k : string) (c : list (string * nat)) :
  (counter_incr k c).*1 = if decide (k ∈ c.*1) then c.*1 else c.*1 ++ [k].
Proof.
  induction c as [|[k0 n] c IH]; csimpl; [done|].
  destruct (String.eqb_spec k k0) as [->|Hne]; csimpl.
  - rewrite decide_True; [done | left].
  - rewrite IH. destruct (decide (k ∈ c.*1)) as [Hin|Hnin].
    + rewrite decide_True; [done | by right].
    + rewrite decide_False; [done|]. intros Hin. by inv Hin.
Qed.

Lemma foldl_counter_get (k : string) (ks : list string) (acc : list (string * nat)) :
  counter_get k (foldl (fun c x => counter_incr x c) acc ks) =
  (counter_get k acc + occurrences_of k ks)%nat.
Proof.
  unfold occurrences_of. revert acc. induction ks as [|x ks IH]; intros acc; simpl.
  - lia.
  - rewrite IH, counter_get_incr, filter_cons.
    destruct (decide (k = x)) as [->|Hne].
    + rewrite decide_True by done. simpl. lia.
    + rewrite decide_False by done. done.
Qed.

Lemma foldl_counter_keys (ks : list string) (acc : list (string * nat)) :
  NoDup acc.*1 ->
  NoDup (foldl (fun c x => counter_incr x c) acc ks).*1 /\
  forall k, k ∈ (foldl (fun c x => counter_incr x c) acc ks).*1 <-> k ∈ acc.*1 \/ k ∈ ks.
Proof.
  revert acc. induction ks as [|x ks IH]; intros acc Hnd; simpl.
  - split; [done|]. intros k. rewrite elem_of_nil. naive_solver.
  - assert (NoDup (counter_incr x acc).*1) as Hnd'.
    { rewrite keys_incr. case_decide; [done|].
      apply NoDup_app. split; [done|]. split; [|apply NoDup_singleton].
      intros y Hy Hy'. apply list_elem_of_singleton in Hy'. by subst. }
    destruct (IH _ Hnd') as [Hnd'' Hin]. split; [done|].
    intros k. rewrite Hin, keys_incr, elem_of_cons.
    case_decide; [|rewrite elem_of_app, list_elem_of_singleton]; naive_solver.
Qed.

Lemma counter_get_elem (p : string) (n : nat) (c : list (string * nat)) :
  NoDup c.*1 -> (p, n) ∈ c <-> p ∈ c.*1 /\ counter_get p c = n.
Proof.
  induction c as [|[k0 n0] c IH]; csimpl; intros Hnd.
  - rewrite !elem_of_nil. naive_solver.
  - apply NoDup_cons in Hnd as [Hk0 Hnd]. rewrite !elem_of_cons, (IH Hnd).
    destruct (String.eqb_spec p k0) as [->|Hne]; [|naive_solver].
    split.
    + intros [[= ->]|[Hin _]]; [by split; [left|] | done].
    + intros [_ ->]. by left.
Qed.

(** What [Counter(ks)] holds: each key of [ks] once, with the number of
    times it occurs. *)
Lemma NoDup_Counter (ks : list string) : NoDup (Counter ks).*1.
Proof. apply (foldl_counter_keys ks []). constructor. Qed.

Lemma counter_get_Counter (k : string) (ks : list string) :
  counter_get k (Counter ks) = occurrences_of k ks.
Proof. unfold Counter. by rewrite foldl_counter_get. Qed.

Lemma elem_of_Counter (p : string) (n : nat) (ks : list string) :
  (p, n) ∈ Counter ks <-> p ∈ ks /\ n = occurrences_of p ks.
Proof.
  rewrite (counter_get_elem p n _ (NoDup_Counter ks)), counter_get_Counter.
  pose proof (foldl_counter_keys ks [] (NoDup_nil_2)) as [_ Hin].
  unfold Counter. rewrite Hin, elem_of_nil. naive_solver.
Qed.

Lemma occurrences_of_perm (k : string) (ks ks' : list string) :
  ks ≡ₚ ks' -> occurrences_of k ks = occurrences_of k ks'.
Proof. unfold occurrences_of. by intros ->. Qed.

Lemma Counter_perm (ks ks' : list string) : ks ≡ₚ ks' -> Counter ks ≡ₚ Counter ks'.
Proof.
  intros Hp. apply NoDup_Permutation.
  - eapply NoDup_fmap_1, NoDup_Counter.
  - eapply NoDup_fmap_1, NoDup_Counter.
  - intros [p n]. rewrite !elem_of_Counter, (occurrences_of_perm p _ _ Hp), Hp. done.
Qed.

Lemma first_bytes_Counter (messages : list msg) :
  first_bytes messages = Counter (first_byte_keys messages).
Proof.
  unfold first_bytes, Counter, first_byte_keys. generalize (@nil (string * nat)).
  induction messages as [|m messages IH]; intros acc; [done|].
  cbn [foldl omap list_omap].
  destruct (2 <=? String.length (payload_hex m))%nat; cbn [foldl]; apply IH.
Qed.

(** [most_common] reorders, and puts larger counts first. *)
Lemma insert_desc_perm (x : string * nat) (l : list (string * nat)) :
  insert_desc x l ≡ₚ x :: l.
Proof.
  induction l as [|y l IH]; simpl; [done|].
  destruct (x.2 <? y.2)%nat; [|done]. by rewrite IH, Permutation_swap.
Qed.

Lemma most_common_perm (c : list (string * nat)) : most_common c ≡ₚ c.
Proof.
  induction c as [|x c IH]; simpl; [done|]. by rewrite insert_desc_perm, IH.
Qed.

Lemma insert_desc_sorted (x : string * nat) (l : list (string * nat)) :
  StronglySorted (fun a b => (b.2 <= a.2)%nat) l ->
  StronglySorted (fun a b => (b.2 <= a.2)%nat) (insert_desc x l).
Proof.
  induction 1 as [|y l Hl IH Hy]; simpl.
  - repeat constructor.
  - destruct (x.2 <? y.2)%nat eqn:Hlt.
    + apply Nat.ltb_lt in Hlt. constructor; [done|].
      rewrite insert_desc_perm. constructor; [lia | done].
    + apply Nat.ltb_ge in Hlt. constructor; [by constructor|].
      constructor; [done|]. eapply Forall_impl; [exact Hy|]. simpl. lia.
Qed.

Lemma most_common_sorted (c : list (string * nat)) :
  StronglySorted (fun a b => (b.2 <= a.2)%nat) (most_common c).
Proof.
  induction c as [|x c IH]; simpl; [constructor | by apply insert_desc_sorted].
Qed.

End CounterFacts.

(** ** The analysis of one length *)

Section AnalysisFacts.
Import Inventory.

Lemma bucket_perm (msgs msgs' : list msg) (k : Z) :
  msgs ≡ₚ msgs' ->
  getitem (group_by_length msgs) k ≡ₚ getitem (group_by_length msgs') k.
Proof. intros Hp. rewrite !getitem_group. by rewrite Hp. Qed.

Lemma sorted_keys_order_free (msgs msgs' : list msg) :
  msgs ≡ₚ msgs' ->
  sorted_keys (group_by_length msgs) = sorted_keys (group_by_length msgs').
Proof.
  intros Hp. apply (StronglySorted_unique Z.le).
  - apply StronglySorted_merge_sort; apply _.
  - apply StronglySorted_merge_sort; apply _.
  - apply NoDup_Permutation.
    + rewrite sorted_keys_perm. apply NoDup_fst_map_to_list.
    + rewrite sorted_keys_perm. apply NoDup_fst_map_to_list.
    + intros k. rewrite !elem_of_sorted_keys. by setoid_rewrite Hp.
Qed.

Lemma first_byte_keys_perm (messages messages' : list msg) :
  messages ≡ₚ messages' -> first_byte_keys messages ≡ₚ first_byte_keys messages'.
Proof. unfold first_byte_keys. by intros ->. Qed.

(** C6: the counts do not depend on the order of the records.  For two
    orderings of the same records the table of bucket counts is the
    same, and for every length the number of unique patterns, the count
    of every pattern and the count of every first byte are the same; the
    counters and their [most_common] listings hold the same entries, in
    an order that may differ. *)
Theorem classify_order_insensitive (msgs msgs' : list msg) :
  msgs ≡ₚ msgs' ->
  length_distribution (group_by_length msgs) =
    length_distribution (group_by_length msgs') /\
  forall k,
    let bucket := getitem (group_by_length msgs) k in
    let bucket' := getitem (group_by_length msgs') k in
    List.length bucket = List.length bucket' /\
    unique_count bucket = unique_count bucket' /\
    (forall p, counter_get p (hex_patterns bucket) = counter_get p (hex_patterns bucket')) /\
    (forall fb, counter_get fb (first_bytes bucket) = counter_get fb (first_bytes bucket')) /\
    most_common (hex_patterns bucket) ≡ₚ most_common (hex_patterns bucket') /\
    most_common (first_bytes bucket) ≡ₚ most_common (first_bytes bucket').
Proof.
  intros Hp. split.
  - unfold length_distribution. rewrite (sorted_keys_order_free _ _ Hp).
    apply list_fmap_ext. intros _ k _. by rewrite (bucket_perm _ _ k Hp).
  - intros k bucket bucket'. pose proof (bucket_perm _ _ k Hp) as Hb.
    fold bucket bucket' in Hb.
    assert (payload_hex <$> bucket ≡ₚ payload_hex <$> bucket') as Hhex by by rewrite Hb.
    pose proof (first_byte_keys_perm _ _ Hb) as Hfb.
    split; [by rewrite Hb|]. split; [|split; [|split; [|split]]].
    + unfold unique_count, hex_patterns. by rewrite (Counter_perm _ _ Hhex).
    + intros p. unfold hex_patterns.
      rewrite !counter_get_Counter. by apply occurrences_of_perm.
    + intros fb. rewrite !first_bytes_Counter, !counter_get_Counter.
      by apply occurrences_of_perm.
    + rewrite !most_common_perm. by apply Counter_perm.
    + rewrite !most_common_perm, !first_bytes_Counter. by apply Counter_perm.
Qed.

Lemma classify_order_insensitive_witness :
  let a := mkMsg 8 "7e03010000000000" 1 in
  let b := mkMsg 40 Decode40.hex_data 2 in
  length_distribution (group_by_length [a; b; a]) =
  length_distribution (group_by_length [b; a; a]).
Proof.
  intros a b.
  exact (proj1 (classify_order_insensitive [a; b; a] [b; a; a] (perm_swap b a [a]))).
Defined.

Lemma hex_pair_int16 : int16_hex hex_pair.
Proof. intros a b hi lo Ha Hb. simpl. by rewrite Ha, Hb. Qed.

Lemma hex_first_byte (p : string) :
  is_hex p = true -> (2 <= String.length p)%nat ->
  exists a b hi lo,
    String.substring 0 2 p = String a (String b EmptyString) /\
    Py.hex_digit a = Some hi /\ Py.hex_digit b = Some lo.
Proof.
  intros Hhex Hlen. destruct p as [|a [|b rest]]; simpl in Hlen; [lia | lia |].
  simpl in Hhex. apply andb_prop in Hhex as [Ha Hhex].
  apply andb_prop in Hhex as [Hb _].
  apply bool_decide_eq_true in Ha as [hi Ha], Hb as [lo Hb].
  exists a, b, hi, lo. split; [by destruct rest | done].
Qed.

Lemma full_entry_ok (int16 : string -> result Z) (i n : nat) (p : string) :
  int16_hex int16 -> is_hex p = true ->
  exists fb, full_entry int16 (i, (p, n)) = Ok (mkEntry i n p fb).
Proof.
  intros Hint Hhex. unfold full_entry.
  destruct (2 <=? String.length p)%nat eqn:Hlen; [|by eexists].
  apply Nat.leb_le in Hlen.
  destruct (hex_first_byte p Hhex Hlen) as (a & b & hi & lo & -> & Ha & Hb).
  rewrite (Hint a b hi lo Ha Hb). by eexists.
Qed.

Lemma for_each_full (int16 : string -> result Z) (l : list (string * nat)) (start : nat) :
  int16_hex int16 ->
  Forall (fun pn => is_hex pn.1 = true) l ->
  exists entries,
    for_each (full_entry int16) (enumerate start l) = Ok entries /\
    listed entries = l /\ idx <$> entries = seq start (List.length l).
Proof.
  intros Hint Hl. revert start.
  induction Hl as [|[p n] l Hp _ IH]; intros start; [by exists []|].
  destruct (full_entry_ok int16 start n p Hint Hp) as [fb Hfb].
  destruct (IH (S start)) as (entries & Hfor & Hlisted & Hidx).
  exists (mkEntry start n p fb :: entries).
  cbn [enumerate for_each]. rewrite Hfb. cbn [mbind result_bind]. rewrite Hfor.
  cbn [mbind result_bind]. unfold listed in *. csimpl. by rewrite Hlisted, Hidx.
Qed.

Lemma enumerate_length {A : Type} (start : nat) (l : list A) :
  List.length (enumerate start l) = List.length l.
Proof. revert start. induction l as [|x l IH]; intros start; simpl; [done | by rewrite IH]. Qed.

Lemma top_entries (l : list (string * nat)) (start : nat) :
  listed (top_entry <$> enumerate start l) = (fun pn => (truncated pn.1, pn.2)) <$> l /\
  idx <$> (top_entry <$> enumerate start l) = seq start (List.length l).
Proof.
  revert start. induction l as [|[p n] l IH]; intros start; [done|].
  destruct (IH (S start)) as [Hlisted Hidx]. unfold listed in *. csimpl.
  by rewrite Hlisted, Hidx.
Qed.

Lemma elem_of_hex_patterns (messages : list msg) (p : string) (n : nat) :
  (p, n) ∈ hex_patterns messages <->
  p ∈ payload_hex <$> messages /\ n = occurrences_of p (payload_hex <$> messages).
Proof. apply elem_of_Counter. Qed.

(** C7, as the code has it: for a bucket of hex payloads, when there are
    at most 10 unique patterns every pattern is listed once, with its
    count, in [most_common] order; when there are more than 10, only the
    first 5 of that order are listed, each shown cut to 80 characters,
    and no pattern left out has a larger count than a listed one.  The
    listed ranks are 1, 2, ...; a pattern's count is the number of
    records of the bucket that carry it. *)
Theorem list_patterns_spec (int16 : string -> result Z) (messages : list msg) :
  int16_hex int16 ->
  Forall (fun m => is_hex (payload_hex m) = true) messages ->
  exists entries,
    list_patterns int16 messages = Ok entries /\
    idx <$> entries = seq 1 (List.length entries) /\
    (forall p n, (p, n) ∈ hex_patterns messages <->
       p ∈ payload_hex <$> messages /\
       n = occurrences_of p (payload_hex <$> messages)) /\
    ((unique_count messages <= 10)%nat ->
       listed entries = most_common (hex_patterns messages) /\
       listed entries ≡ₚ hex_patterns messages) /\
    ((10 < unique_count messages)%nat ->
       exists top rest,
         most_common (hex_patterns messages) = top ++ rest /\
         List.length top = 5%nat /\
         listed entries = (fun pn => (truncated pn.1, pn.2)) <$> top /\
         forall pn qn, pn ∈ top -> qn ∈ rest -> (qn.2 <= pn.2)%nat).
Proof.
  intros Hint Hhex. unfold list_patterns. fold (unique_count messages).
  destruct (unique_count messages <=? 10)%nat eqn:Hle.
  - apply Nat.leb_le in Hle.
    destruct (for_each_full int16 (most_common (hex_patterns messages)) 1 Hint)
      as (entries & Hfor & Hlisted & Hidx).
    { apply Forall_forall. intros [p n] Hin. rewrite most_common_perm in Hin.
      apply elem_of_hex_patterns in Hin as [Hin _].
      apply list_elem_of_fmap in Hin as (m & -> & Hm).
      rewrite Forall_forall in Hhex. by apply Hhex. }
    exists entries. split; [done|]. split.
    { rewrite Hidx, <- Hlisted. unfold listed. by rewrite length_fmap. }
    split; [apply elem_of_hex_patterns|]. split; [|lia].
    intros _. split; [done|]. rewrite Hlisted. apply most_common_perm.
  - apply Nat.leb_gt in Hle. eexists. split; [done|].
    destruct (top_entries (most_common_n 5 (hex_patterns messages)) 1) as [Hlisted Hidx].
    assert (List.length (most_common_n 5 (hex_patterns messages)) = 5%nat) as Hfive.
    { unfold most_common_n. rewrite length_take, most_common_perm.
      unfold unique_count in Hle. lia. }
    split; [by rewrite Hidx, length_fmap, enumerate_length|].
    split; [apply elem_of_hex_patterns|]. split; [lia|].
    intros _. exists (most_common_n 5 (hex_patterns messages)),
                (drop 5 (most_common (hex_patterns messages))).
    unfold most_common_n in *. rewrite take_drop.
    split; [done|]. split; [done|]. split; [done|].
    intros pn qn Hp Hq.
    pose proof (most_common_sorted (hex_patterns messages)) as Hsorted.
    rewrite <- (take_drop 5 (most_common (hex_patterns messages))) in Hsorted.
    exact (StronglySorted_app_1_elem_of _ _ _ pn qn Hsorted Hp Hq).
Qed.

Lemma list_patterns_spec_witness :
  let messages := [mkMsg 8 "7e03010000000000" 1; mkMsg 8 "ff03020000000000" 2;
                   mkMsg 8 "7e03010000000000" 3] in
  exists entries,
    list_patterns hex_pair messages = Ok entries /\
    listed entries = [("7e03010000000000", 2%nat); ("ff03020000000000", 1%nat)].
Proof.
  intros messages.
  destruct (list_patterns_spec hex_pair messages hex_pair_int16
              ltac:(repeat constructor))
    as (entries & Hrun & _ & _ & Hfull & _).
  exists entries. split; [exact Hrun|].
  exact (proj1 (Hfull ltac:(vm_compute; lia))).
Defined.

(** C7, as stated, fails at exactly 10 unique patterns: the count is not
    below 10, yet all 10 patterns are listed, not the top 5. *)
Lemma ten_patterns_listed_in_full :
  let messages :=
    (fun p => mkMsg 1 p 1) <$>
      ["00"; "01"; "02"; "03"; "04"; "05"; "06"; "07"; "08"; "09"] in
  unique_count messages = 10%nat /\
  ~ (unique_count messages < 10)%nat /\
  exists entries,
    list_patterns hex_pair messages = Ok entries /\
    shown <$> entries =
      ["00"; "01"; "02"; "03"; "04"; "05"; "06"; "07"; "08"; "09"] /\
    List.length entries <> 5%nat.
Proof.
  cbv zeta. split; [reflexivity|]. split; [vm_compute; lia|].
  eexists. split; [vm_compute; reflexivity|]. split; [reflexivity | discriminate].
Qed.

End AnalysisFacts.

(** * Further results *)

(** ** The whole breakdown of decode_40byte_message.py *)

Section BreakdownFacts.
Import Py.

(** The payload block reads up to [data[39]]: a buffer with a full
    header but fewer than 40 bytes ends in [IndexError]. *)
Theorem breakdown_short_buffer (data : list byte) :
  (8 <= List.length data < 40)%nat ->
  Decode40.breakdown data = Raise IndexError.
Proof.
  intros Hlen.
  do 40 (destruct data as [|? data]; [try (simpl in Hlen; lia); reflexivity|]).
  simpl in Hlen. lia.
Qed.

Lemma breakdown_short_buffer_witness :
  Decode40.breakdown ["~"%byte; x03; x01; x00; x00; x00; x01; x00; x01] = Raise IndexError.
Proof.
  apply breakdown_short_buffer. simpl. lia.
Defined.

(** On 40 bytes or more the breakdown succeeds, and every value it
    prints is the byte of the buffer at the absolute offset printed next
    to it: payload index [i] is buffer offset [8 + i]. *)
Theorem breakdown_offsets (data : list byte) :
  (40 <= List.length data)%nat ->
  exists f v,
    Decode40.breakdown data = Ok (f, v) /\
    Decode40.decode data = Ok f /\
    data !! 8%nat = Some (Decode40.message_type v) /\
    data !! 9%nat = Some (Decode40.field_1 v) /\
    data !! 10%nat = Some (Decode40.field_2 v) /\
    Decode40.bytes_11_18 v = slice data 11 19 /\
    data !! 19%nat = Some (Decode40.nested_type v) /\
    data !! 20%nat = Some (Decode40.nested_field_1 v) /\
    Decode40.nested_field_2_3 v = slice data 21 23 /\
    Decode40.bytes_23_30 v = slice data 23 31 /\
    data !! 31%nat = Some (Decode40.possible_type v) /\
    data !! 39%nat = Some (Decode40.last_byte v).
Proof.
  intros Hlen.
  do 40 (destruct data as [|? data]; [simpl in Hlen; lia|]).
  eexists _, _. repeat split.
Qed.

Lemma breakdown_offsets_witness :
  exists d f v,
    Decode40.data = Ok d /\ Decode40.breakdown d = Ok (f, v) /\
    d !! 19%nat = Some (Decode40.nested_type v).
Proof.
  eexists. 
  destruct (breakdown_offsets
              (match Decode40.data with Ok d => d | Raise _ => [] end)
              ltac:(vm_compute; lia))
    as (f & v & Hrun & _ & _ & _ & _ & _ & H19 & _).
  exists f, v. split; [vm_compute; reflexivity|]. split; [exact Hrun | exact H19].
Defined.

End BreakdownFacts.

(** ** bytes.fromhex and bytes.hex *)

Section HexFacts.
Import Py Inventory.

Lemma hex_digit_not_space (c : ascii) (n : N) : hex_digit c = Some n -> is_space c = false.
Proof.
  destruct c as [[] [] [] [] [] [] [] []]; vm_compute; congruence.
Qed.

Lemma fromhex_pair (a b : ascii) (hi lo : N) (s : string) :
  hex_digit a = Some hi -> hex_digit b = Some lo ->
  fromhex (String a (String b s)) =
  (rest ← fromhex s; Ok (byte_of_N (16 * hi + lo) :: rest)).
Proof.
  intros Ha Hb. cbn [fromhex]. by rewrite (hex_digit_not_space a hi Ha), Ha, Hb.
Qed.

Lemma fromhex_hex_byte (b : byte) (s : string) :
  fromhex (hex_byte b +:+ s) = (rest ← fromhex s; Ok (b :: rest)).
Proof. destruct b; reflexivity. Qed.

(** What the script prints with [.hex()] parses back with
    [bytes.fromhex] to the same bytes. *)
Theorem fromhex_hex (bs : list byte) : fromhex (hex bs) = Ok bs.
Proof.
  induction bs as [|b bs IH]; [done|].
  cbn [hex]. by rewrite fromhex_hex_byte, IH.
Qed.

Lemma hex_length (bs : list byte) : String.length (hex bs) = (2 * List.length bs)%nat.
Proof.
  induction bs as [|b bs IH]; [done|].
  cbn [hex List.length]. change (hex_byte b +:+ hex bs) with
    (String (hex_char (Byte.to_N b / 16)) (String (hex_char (Byte.to_N b mod 16)) (hex bs))).
  cbn [String.length]. rewrite IH. lia.
Qed.

Lemma is_hex_cons (c : ascii) (s : string) :
  is_hex (String c s) = true <-> (exists n, hex_digit c = Some n) /\ is_hex s = true.
Proof.
  cbn [is_hex]. rewrite andb_true_iff, bool_decide_eq_true. done.
Qed.

(** On a text of hex digits, [bytes.fromhex] returns one byte per two
    characters when the length is even, and raises [ValueError] when it
    is odd. *)
Theorem fromhex_is_hex (s : string) :
  is_hex s = true ->
  if Nat.even (String.length s)
  then exists raw, fromhex s = Ok raw /\ (2 * List.length raw)%nat = String.length s
  else fromhex s = Raise ValueError.
Proof.
  assert (forall s,
    (is_hex s = true ->
     if Nat.even (String.length s)
     then exists raw, fromhex s = Ok raw /\ (2 * List.length raw)%nat = String.length s
     else fromhex s = Raise ValueError) /\
    (forall c, is_hex (String c s) = true ->
     if Nat.even (String.length (String c s))
     then exists raw, fromhex (String c s) = Ok raw /\
                      (2 * List.length raw)%nat = String.length (String c s)
     else fromhex (String c s) = Raise ValueError)) as Hboth; [|apply Hboth].
  clear s. induction s as [|d s [IH0 IH1]].
  - split; [intros _; by exists []|].
    intros c [[n Hc] _]%is_hex_cons. cbn. by rewrite (hex_digit_not_space c n Hc), Hc.
  - split; [apply IH1|].
    intros c [[hi Hc] [[lo Hd] Hs]%is_hex_cons]%is_hex_cons.
    rewrite (fromhex_pair c d hi lo s Hc Hd). cbn [String.length Nat.even].
    specialize (IH0 Hs). destruct (Nat.even (String.length s)).
    + destruct IH0 as (raw & -> & Hlen). eexists. split; [done|].
      cbn [List.length]. lia.
    + by rewrite IH0.
Qed.

Lemma fromhex_is_hex_witness :
  exists raw, fromhex "7e03" = Ok raw /\ (2 * List.length raw)%nat = 4%nat.
Proof.
  exact (fromhex_is_hex "7e03" eq_refl).
Defined.

End HexFacts.

(** ** More on collecting the records *)

Section CollectMore.
Import Inventory.


Lemma read_lines_sublist (ls : list line) : sublist (read_lines ls []).1 (records ls).
Proof.
  induction ls as [|l ls IH]; [done|].
  destruct l as [|m|]; cbn [read_lines]; unfold records; csimpl.
  - exact IH.
  - rewrite read_lines_acc. cbn [fst]. by apply sublist_skip.
  - apply sublist_nil_l.
Qed.

(** Each file is read on its own: the run over a list of files collects
    what the runs over the single files collect, file after file, and
    prints their warnings in the same order. *)
Theorem collect_per_file (files : list capture_file) :
  all_messages (collect files) =
    concat ((fun f => all_messages (collect [f])) <$> files) /\
  warnings (collect files) =
    concat ((fun f => warnings (collect [f])) <$> files).
Proof.
  induction files as [|f files [IHm IHw]]; [done|].
  rewrite collect_cons. cbn [all_messages warnings]. csimpl.
  by rewrite IHm, IHw.
Qed.


(** The run never collects a record that is not on a line of some file,
    and keeps the records in file and line order. *)
Theorem collect_sublist (files : list capture_file) :
  sublist (all_messages (collect files))
          (concat ((fun f => records (default [] (contents f))) <$> files)).
Proof.
  induction files as [|f files IH]; [done|].
  rewrite collect_cons. cbn [all_messages]. csimpl.
  apply sublist_app; [|exact IH].
  unfold read_file. destruct (contents f) as [ls|]; cbn; [|apply sublist_nil_l].
  pose proof (read_lines_sublist ls) as Hs.
  by destruct (read_lines ls []) as [msgs raised].
Qed.


End CollectMore.

(** ** More on grouping *)

Section GroupingMore.
Import Inventory.

Lemma strictly_ascending (l : list Z) :
  StronglySorted Z.le l -> NoDup l -> StronglySorted Z.lt l.
Proof.
  induction 1 as [|x l Hl IH Hx]; intros Hnd; [constructor|].
  apply NoDup_cons in Hnd as [Hnotin Hnd]. constructor; [by apply IH|].
  rewrite Forall_forall in Hx |- *. intros y Hy.
  specialize (Hx y Hy). assert (x <> y) by (intros ->; done). lia.
Qed.

Lemma length_distribution_keys (by_length : gmap Z (list msg)) :
  (length_distribution by_length).*1 = sorted_keys by_length.
Proof.
  unfold length_distribution. rewrite <- list_fmap_compose.
  induction (sorted_keys by_length) as [|k ks IH]; [done|]. csimpl. by rewrite IH.
Qed.

(** The rows of the length table are in strictly ascending order of
    length: no length is listed twice. *)
Theorem length_distribution_ascending (by_length : gmap Z (list msg)) :
  StronglySorted Z.lt (length_distribution by_length).*1.
Proof.
  rewrite length_distribution_keys. apply strictly_ascending.
  - apply StronglySorted_merge_sort; apply _.
  - rewrite sorted_keys_perm. apply NoDup_fst_map_to_list.
Qed.

(** A row [(k, n)] is in the table exactly when [n] is the number of
    records whose [payload_length] is [k] and [n] is not zero: a length
    that does not occur is never listed. *)
Theorem length_distribution_rows (msgs : list msg) (k : Z) (n : nat) :
  (k, n) ∈ length_distribution (group_by_length msgs) <->
  n = List.length (filter (fun m => payload_length m = k) msgs) /\ (1 <= n)%nat.
Proof.
  unfold length_distribution. rewrite list_elem_of_fmap. split.
  - intros (k' & [= -> ->] & Hin). rewrite getitem_group. split; [done|].
    apply elem_of_sorted_keys in Hin as (m & Hm & Hk).
    assert (m ∈ filter (fun m => payload_length m = k') msgs) as Hf
      by by apply list_elem_of_filter.
    destruct (filter _ msgs); [by apply elem_of_nil in Hf | simpl; lia].
  - intros [-> Hpos]. exists k. rewrite getitem_group. split; [done|].
    apply elem_of_sorted_keys.
    destruct (filter (fun m => payload_length m = k) msgs) as [|m rest] eqn:Hf;
      [simpl in Hpos; lia|].
    assert (m ∈ filter (fun m => payload_length m = k) msgs) as Hin
      by (rewrite Hf; left).
    apply list_elem_of_filter in Hin as [Hk Hin]. by exists m.
Qed.

(** Grouping two corpora one after the other gives, for every length,
    the bucket of the first followed by the bucket of the second. *)
Theorem group_by_length_app (msgs1 msgs2 : list msg) (k : Z) :
  getitem (group_by_length (msgs1 ++ msgs2)) k =
  getitem (group_by_length msgs1) k ++ getitem (group_by_length msgs2) k.
Proof. rewrite !getitem_group. apply filter_app. Qed.

End GroupingMore.

(** ** More on counters *)

Section CounterMore.
Import Inventory.

Lemma counter_incr_total (k : string) (c : list (string * nat)) :
  sum_list (counter_incr k c).*2 = S (sum_list c.*2).
Proof.
  induction c as [|[k0 n] c IH]; csimpl; [done|].
  destruct (String.eqb_spec k k0); csimpl; [done|]. rewrite IH. lia.
Qed.

Lemma Counter_total (ks : list string) : sum_list (Counter ks).*2 = List.length ks.
Proof.
  unfold Counter.
  assert (forall acc, sum_list (foldl (fun c x => counter_incr x c) acc ks).*2 =
                      (sum_list acc.*2 + List.length ks)%nat) as Hgen.
  { induction ks as [|x ks IH]; intros acc; cbn [foldl List.length]; [lia|].
    rewrite IH, counter_incr_total. lia. }
  by rewrite Hgen.
Qed.

(** The counts of the patterns of a bucket add up to the size of the
    bucket. *)
Theorem hex_patterns_total (messages : list msg) :
  sum_list (hex_patterns messages).*2 = List.length messages.
Proof. unfold hex_patterns. by rewrite Counter_total, length_fmap. Qed.

(** The first-byte counts add up to the number of records whose payload
    has at least 2 characters; shorter payloads are in no row. *)
Theorem first_bytes_total (messages : list msg) :
  sum_list (first_bytes messages).*2 =
  List.length (filter (fun m => (2 <= String.length (payload_hex m))%nat) messages).
Proof.
  rewrite first_bytes_Counter, Counter_total. unfold first_byte_keys.
  induction messages as [|m messages IH]; [done|].
  rewrite filter_cons. cbn [omap list_omap].
  destruct (2 <=? String.length (payload_hex m))%nat eqn:Hlen.
  - apply Nat.leb_le in Hlen. rewrite decide_True by done.
    cbn [List.length]. by f_equal.
  - apply Nat.leb_gt in Hlen. rewrite decide_False by lia. exact IH.
Qed.

(** Every first-byte key is a 2-character text. *)
Theorem first_bytes_keys (messages : list msg) (k : string) (n : nat) :
  (k, n) ∈ first_bytes messages -> String.length k = 2%nat /\ (1 <= n)%nat.
Proof.
  rewrite first_bytes_Counter, elem_of_Counter. intros [Hin ->].
  split.
  - unfold first_byte_keys in Hin. apply list_elem_of_omap in Hin as (m & _ & Hk).
    destruct (2 <=? String.length (payload_hex m))%nat eqn:Hlen; [|done].
    apply Nat.leb_le in Hlen. injection Hk as <-.
    destruct (payload_hex m) as [|a [|b rest]]; simpl in Hlen; [lia | lia |].
    by destruct rest.
  - unfold occurrences_of.
    assert (k ∈ filter (fun x => x = k) (first_byte_keys messages)) as Hf
      by by apply list_elem_of_filter.
    destruct (filter _ _); [by apply elem_of_nil in Hf | simpl; lia].
Qed.

Lemma first_bytes_keys_witness :
  String.length "7e" = 2%nat /\ (1 <= 2)%nat.
Proof.
  apply (first_bytes_keys
           [mkMsg 8 "7e03010000000000" 1; mkMsg 8 "7e03020000000000" 2] "7e" 2).
  left.
Defined.

Lemma insert_desc_filter (x : string * nat) (l : list (string * nat)) (n : nat) :
  filter (fun y => y.2 = n) (insert_desc x l) = filter (fun y => y.2 = n) (x :: l).
Proof.
  induction l as [|y l IH]; [done|]. cbn [insert_desc].
  destruct (x.2 <? y.2)%nat eqn:Hlt; [|done].
  apply Nat.ltb_lt in Hlt. rewrite filter_cons, IH, !filter_cons.
  repeat case_decide; try done; lia.
Qed.

(** [most_common] is stable: among the entries with one and the same
    count it keeps the order of first insertion. *)
Theorem most_common_stable (c : list (string * nat)) (n : nat) :
  filter (fun y => y.2 = n) (most_common c) = filter (fun y => y.2 = n) c.
Proof.
  induction c as [|x c IH]; [done|].
  cbn [most_common foldr]. fold (most_common c).
  by rewrite insert_desc_filter, !filter_cons, IH.
Qed.

(** [most_common] lists the same entries, larger counts first, and
    [most_common(n)] is its first [n] entries. *)
Theorem most_common_descending (c : list (string * nat)) (n : nat) :
  most_common c ≡ₚ c /\
  StronglySorted (fun a b => (b.2 <= a.2)%nat) (most_common c) /\
  List.length (most_common_n n c) = (n `min` List.length c)%nat /\
  (forall x y, x ∈ most_common_n n c -> y ∈ drop n (most_common c) -> (y.2 <= x.2)%nat).
Proof.
  split; [apply most_common_perm|]. split; [apply most_common_sorted|].
  unfold most_common_n. split; [by rewrite length_take, most_common_perm|].
  intros x y Hx Hy. pose proof (most_common_sorted c) as Hs.
  rewrite <- (take_drop n (most_common c)) in Hs.
  exact (StronglySorted_app_1_elem_of _ _ _ x y Hs Hx Hy).
Qed.


(** There are never more unique patterns than records. *)
Theorem unique_count_le (messages : list msg) :
  (unique_count messages <= List.length messages)%nat.
Proof.
  unfold unique_count. rewrite <- (length_fmap fst (hex_patterns messages)).
  rewrite <- (length_fmap payload_hex messages).
  apply submseteq_length, NoDup_submseteq; [apply NoDup_Counter|].
  intros p Hp. apply list_elem_of_fmap in Hp as ([p' n] & -> & Hin).
  by apply elem_of_hex_patterns in Hin as [Hin _].
Qed.

End CounterMore.

(** ** More on the listed patterns *)

Section PatternsMore.
Import Inventory.

Lemma substring0_length (n : nat) (s : string) :
  String.length (String.substring 0 n s) = (n `min` String.length s)%nat.
Proof.
  revert s. induction n as [|n IH]; intros s; [by destruct s|].
  destruct s as [|c s]; [done|]. cbn [String.substring String.length]. by rewrite IH.
Qed.

Lemma substring0_all (n : nat) (s : string) :
  (String.length s <= n)%nat -> String.substring 0 n s = s.
Proof.
  revert s. induction n as [|n IH]; intros s Hlen.
  - destruct s; [done | simpl in Hlen; lia].
  - destruct s as [|c s]; [done|]. cbn [String.substring]. rewrite IH; [done|].
    simpl in Hlen. lia.
Qed.

Lemma append_length (s t : string) :
  String.length (s +:+ t) = (String.length s + String.length t)%nat.
Proof.
  induction s as [|c s IH]; [done|].
  change (S (String.length (s +:+ t)) = S (String.length s + String.length t)).
  by rewrite IH.
Qed.

Lemma append_empty (s : string) : s +:+ "" = s.
Proof.
  induction s as [|c s IH]; [done|].
  change (String c (s +:+ "") = String c s). by rewrite IH.
Qed.

Lemma truncated_bound (hex_pattern : string) :
  (String.length (truncated hex_pattern) <= 83)%nat.
Proof.
  unfold truncated. rewrite append_length, substring0_length.
  destruct (80 <? String.length hex_pattern)%nat.
  - change (String.length "...") with 3%nat. lia.
  - change (String.length "") with 0%nat. lia.
Qed.

(** Line 84 shows a pattern of at most 80 characters as it is, and a
    longer one as 83 characters: its first 80 and three dots. *)
Theorem truncated_spec (hex_pattern : string) :
  ((String.length hex_pattern <= 80)%nat -> truncated hex_pattern = hex_pattern) /\
  ((80 < String.length hex_pattern)%nat ->
     String.length (truncated hex_pattern) = 83%nat /\
     String.substring 0 80 (truncated hex_pattern) = String.substring 0 80 hex_pattern) /\
  (String.length (truncated hex_pattern) <= 83)%nat.
Proof.
  unfold truncated.
  destruct (80 <? String.length hex_pattern)%nat eqn:Hlong.
  - apply Nat.ltb_lt in Hlong. split; [lia|].
    assert (String.length (String.substring 0 80 hex_pattern +:+ "...") = 83%nat) as Hlen.
    { rewrite append_length, substring0_length.
      change (String.length "...") with 3%nat. lia. }
    split; [|lia]. intros _. split; [done|].
    assert (forall n s t, String.length s = n ->
              String.substring 0 n (s +:+ t) = s) as Hpre.
    { intros n s. revert n. induction s as [|c s IH]; intros n t Hn.
      - subst n. by destruct t.
      - destruct n as [|n]; [done|].
        change (String c (String.substring 0 n (s +:+ t)) = String c s).
        rewrite IH; [done|]. simpl in Hn. lia. }
    apply Hpre. rewrite substring0_length. lia.
  - apply Nat.ltb_ge in Hlong. rewrite append_empty.
    split; [intros _; by apply substring0_all|]. split; [lia|].
    rewrite substring0_length. lia.
Qed.

Lemma truncated_spec_witness : truncated Decode40.hex_data = Decode40.hex_data.
Proof.
  apply (proj1 (truncated_spec Decode40.hex_data)). vm_compute. lia.
Defined.

Lemma for_each_raise_inv {A B : Type} (body : A -> result B) (l : list A) (e : error) :
  for_each body l = Raise e -> exists x, x ∈ l /\ body x = Raise e.
Proof.
  induction l as [|x l IH]; cbn [for_each]; [done|].
  unfold mbind, result_bind. destruct (body x) as [y|e'] eqn:Hx.
  - destruct (for_each body l) as [ys|e''] eqn:Hl; [done|].
    intros [= ->]. destruct (IH eq_refl) as (x' & Hin & Hx').
    exists x'. split; [by right | done].
  - intros [= ->]. exists x. split; [left | done].
Qed.

Lemma for_each_raise_intro {A B : Type} (body : A -> result B) (l : list A)
    (x : A) (e : error) :
  x ∈ l -> body x = Raise e -> exists e', for_each body l = Raise e'.
Proof.
  intros Hin Hx. induction l as [|y l IH]; [by apply elem_of_nil in Hin|].
  cbn [for_each]. unfold mbind, result_bind.
  destruct (body y) as [z|e'] eqn:Hy; [|by eexists].
  apply elem_of_cons in Hin as [->|Hin]; [congruence|].
  destruct (IH Hin) as [e' ->]. by eexists.
Qed.

Lemma elem_of_enumerate {A : Type} (start : nat) (l : list A) (x : A) :
  x ∈ l <-> exists i, (i, x) ∈ enumerate start l.
Proof.
  revert start. induction l as [|y l IH]; intros start; cbn [enumerate].
  - split; [intros Hin | intros [i Hin]]; by apply elem_of_nil in Hin.
  - rewrite elem_of_cons, (IH (S start)). split.
    + intros [->|[i Hi]]; [exists start; left | exists i; by right].
    + intros [i [[= -> ->]|Hi]%elem_of_cons]; [by left | right; by exists i].
Qed.

(** The listing of a bucket is aborted by an exception exactly when the
    bucket has at most 10 unique patterns and [int(_, 16)] raises on the
    first two characters of one of its payloads; a bucket with more than
    10 unique patterns is never parsed. *)
Theorem list_patterns_raises_iff (int16 : string -> result Z) (messages : list msg) :
  (exists e, list_patterns int16 messages = Raise e) <->
  (unique_count messages <= 10)%nat /\
  exists m, m ∈ messages /\ (2 <= String.length (payload_hex m))%nat /\
            exists e, int16 (String.substring 0 2 (payload_hex m)) = Raise e.
Proof.
  unfold list_patterns. fold (unique_count messages).
  destruct (unique_count messages <=? 10)%nat eqn:Hle.
  - apply Nat.leb_le in Hle. split.
    + intros [e He]. split; [done|].
      apply for_each_raise_inv in He as ([i [p n]] & Hin & Hbody).
      assert ((p, n) ∈ most_common (hex_patterns messages)) as Hp
        by (apply (elem_of_enumerate 1); by exists i).
      rewrite most_common_perm in Hp. apply elem_of_hex_patterns in Hp as [Hp _].
      apply list_elem_of_fmap in Hp as (m & -> & Hm). exists m. split; [done|].
      unfold full_entry in Hbody.
      destruct (2 <=? String.length (payload_hex m))%nat eqn:Hlen; [|done].
      apply Nat.leb_le in Hlen. split; [done|]. exists e.
      unfold mbind, result_bind in Hbody.
      by destruct (int16 (String.substring 0 2 (payload_hex m))) as [fb|e']; simplify_eq.
    + intros (_ & m & Hm & Hlen & e & He).
      assert ((payload_hex m, occurrences_of (payload_hex m) (payload_hex <$> messages))
                ∈ most_common (hex_patterns messages)) as Hp.
      { rewrite most_common_perm. apply elem_of_hex_patterns.
        split; [by apply list_elem_of_fmap_2 | done]. }
      apply (elem_of_enumerate 1) in Hp as [i Hi].
      eapply for_each_raise_intro; [exact Hi|].
      unfold full_entry. apply Nat.leb_le in Hlen. rewrite Hlen, He. done.
  - apply Nat.leb_gt in Hle. split; [intros [e He]; done | lia].
Qed.

(** With more than 10 unique patterns the listing always succeeds: it has
    exactly 5 entries, none with a parsed first byte, each shown in at
    most 83 characters. *)
Theorem list_patterns_top5 (int16 : string -> result Z) (messages : list msg) :
  (10 < unique_count messages)%nat ->
  exists entries,
    list_patterns int16 messages = Ok entries /\
    List.length entries = 5%nat /\
    Forall (fun e => first_byte e = None /\ (String.length (shown e) <= 83)%nat) entries.
Proof.
  intros Hmany. unfold list_patterns. fold (unique_count messages).
  apply Nat.leb_gt in Hmany as Hleb. rewrite Hleb. eexists. split; [done|]. split.
  - rewrite length_fmap, enumerate_length. unfold most_common_n.
    rewrite length_take, most_common_perm. unfold unique_count in Hmany. lia.
  - apply Forall_forall. intros e He.
    apply list_elem_of_fmap in He as ([i [p n]] & -> & _). cbn.
    split; [done | apply truncated_bound].
Qed.

Lemma list_patterns_top5_witness :
  let messages :=
    (fun p => mkMsg 1 p 1) <$>
      ["00"; "01"; "02"; "03"; "04"; "05"; "06"; "07"; "08"; "09"; "0a"; "00"] in
  exists entries,
    list_patterns hex_pair messages = Ok entries /\ List.length entries = 5%nat.
Proof.
  intros messages.
  assert (10 < unique_count messages)%nat as Hmany by (vm_compute; lia).
  destruct (list_patterns_top5 hex_pair messages Hmany) as (entries & Hrun & Hlen & _).
  exists entries. split; [exact Hrun | exact Hlen].
Defined.

End PatternsMore.

(** ** The envelope messages by length *)

Section EnvelopeMore.
Import Py Inventory.

Lemma envelope_messages_filter (msgs : list msg) :
  envelope_messages msgs = filter (fun m => is_envelope m = true) msgs.
Proof. unfold envelope_messages. by rewrite envelope_foldl. Qed.

Lemma filter_swap {A : Type} (P Q : A -> Prop)
    `{!forall x, Decision (P x)} `{!forall x, Decision (Q x)} (l : list A) :
  filter P (filter Q l) = filter Q (filter P l).
Proof.
  induction l as [|x l IH]; [done|].
  rewrite !filter_cons. destruct (decide (Q x)), (decide (P x));
    rewrite ?filter_cons, ?decide_True, ?decide_False by done; by rewrite ?IH.
Qed.

(** Grouping the envelope matches by length gives, for every length, the
    envelope matches of that length's bucket: searching and grouping
    commute. *)
Theorem envelope_buckets (msgs : list msg) (k : Z) :
  getitem (group_by_length (envelope_messages msgs)) k =
  envelope_messages (getitem (group_by_length msgs) k).
Proof.
  rewrite !getitem_group, !envelope_messages_filter. apply filter_swap.
Qed.

Lemma examples_ok (env_by_length : gmap Z (list msg)) (ks : list Z) :
  Forall (fun k => getitem env_by_length k <> []) ks ->
  exists examples,
    for_each (envelope_example_of env_by_length) ks = Ok examples /\
    ex_length <$> examples = ks /\
    Forall (fun ex =>
      exists m rest,
        getitem env_by_length (ex_length ex) = m :: rest /\
        ex_full ex = payload_hex m /\
        ex_detail ex =
          if (40 <=? String.length (payload_hex m))%nat
          then Some (String.substring 16 24 (payload_hex m),
                     String.substring 36 2 (payload_hex m))
          else None) examples.
Proof.
  induction 1 as [|k ks Hk _ (examples & Hrun & Hlens & Hall)]; [by exists []|].
  destruct (getitem env_by_length k) as [|m rest] eqn:Hbucket; [done|].
  assert (envelope_example_of env_by_length k =
          Ok (mkExample k (payload_hex m)
                (if (40 <=? String.length (payload_hex m))%nat
                 then Some (String.substring 16 24 (payload_hex m),
                            String.substring 36 2 (payload_hex m))
                 else None))) as Hex
    by (unfold envelope_example_of; by rewrite Hbucket).
  eexists (_ :: examples).
  cbn [for_each]. rewrite Hex, Hrun.
  split; [reflexivity|]. split; [by rewrite fmap_cons, Hlens|].
  constructor; [|done]. exists m, rest. cbn [ex_length ex_full ex_detail].
  by split; [exact Hbucket|].
Qed.

Lemma sorted_keys_nonempty (msgs : list msg) :
  Forall (fun k => getitem (group_by_length msgs) k <> []) (sorted_keys (group_by_length msgs)).
Proof.
  apply Forall_forall. intros k Hk. apply elem_of_sorted_keys in Hk as (m & Hm & Hpl).
  rewrite getitem_group. intros Hnil.
  assert (m ∈ filter (fun m => payload_length m = k) msgs) as Hin
    by by apply list_elem_of_filter.
  rewrite Hnil in Hin. by apply elem_of_nil in Hin.
Qed.

(** The envelope section never raises.  It reports the number of
    matches, a row per length whose counts add up to that number, and an
    example for each of the first 3 lengths at most. *)
Theorem envelope_section_ok (msgs : list msg) :
  exists r,
    envelope_section msgs = Ok r /\
    env_found r = List.length (envelope_messages msgs) /\
    sum_list (env_lengths r).*2 = env_found r /\
    (List.length (env_examples r) <= 3)%nat /\
    ex_length <$> env_examples r = take 3 (env_lengths r).*1.
Proof.
  unfold envelope_section. cbv zeta.
  destruct (envelope_messages msgs) as [|m found] eqn:Hfound.
  { eexists. split; [done|]. cbn. repeat split; lia || done. }
  cbv beta iota. rewrite <- Hfound.
  destruct (examples_ok (group_by_length (envelope_messages msgs))
              (take 3 (sorted_keys (group_by_length (envelope_messages msgs)))))
    as (examples & Hrun & Hlens & _).
  { apply Forall_take, sorted_keys_nonempty. }
  rewrite Hrun. eexists. split; [done|]. cbn.
  split; [done|]. split; [apply distribution_total|].
  rewrite length_distribution_keys. split; [|done].
  rewrite <- (length_fmap ex_length), Hlens, length_take. lia.
Qed.

(** Every example shows the first envelope match of its length in input
    order; the two excerpts are printed only for a payload of at least
    40 characters. *)
Theorem envelope_examples_first (msgs : list msg) (r : envelope_report)
    (ex : envelope_example) :
  envelope_section msgs = Ok r -> ex ∈ env_examples r ->
  exists m rest,
    filter (fun m => payload_length m = ex_length ex) (envelope_messages msgs) = m :: rest /\
    ex_full ex = payload_hex m /\
    ex_detail ex =
      if (40 <=? String.length (payload_hex m))%nat
      then Some (String.substring 16 24 (payload_hex m),
                 String.substring 36 2 (payload_hex m))
      else None.
Proof.
  unfold envelope_section. cbv zeta.
  destruct (envelope_messages msgs) as [|m0 found] eqn:Hfound.
  { intros [= <-] Hin. by apply elem_of_nil in Hin. }
  cbv beta iota. rewrite <- Hfound.
  destruct (examples_ok (group_by_length (envelope_messages msgs))
              (take 3 (sorted_keys (group_by_length (envelope_messages msgs)))))
    as (examples & Hrun & _ & Hall).
  { apply Forall_take, sorted_keys_nonempty. }
  rewrite Hrun. intros [= <-] Hin. cbn in Hin.
  rewrite Forall_forall in Hall. destruct (Hall ex Hin) as (m & rest & Hb & Hfull & Hdet).
  exists m, rest. by rewrite <- getitem_group.
Qed.

Lemma envelope_examples_first_witness :
  let a := mkMsg 10 "7e030000000002000100" 1 in
  let b := mkMsg 10 "7e030000000003000101" 2 in
  exists m rest,
    filter (fun m => payload_length m = 10%Z) (envelope_messages [a; b]) = m :: rest /\
    "7e030000000002000100" = payload_hex m.
Proof.
  intros a b.
  destruct (envelope_examples_first [a; b]
              (mkEnvelopeReport 2 [(10%Z, 2%nat)]
                 [mkExample 10 "7e030000000002000100" None])
              (mkExample 10 "7e030000000002000100" None)
              ltac:(reflexivity) ltac:(left))
    as (m & rest & Hf & Hfull & _).
  exists m, rest. split; [exact Hf | exact Hfull].
Defined.

(** The two excerpts of an example: 24 characters (payload bytes 0 to
    11) and 2 characters, the second being characters 20-21 of the first
    (payload byte 10). *)
Theorem example_excerpts (hex_data : string) :
  (40 <= String.length hex_data)%nat ->
  String.length (String.substring 16 24 hex_data) = 24%nat /\
  String.length (String.substring 36 2 hex_data) = 2%nat /\
  String.substring 20 2 (String.substring 16 24 hex_data) = String.substring 36 2 hex_data.
Proof.
  intros Hlen.
  do 40 (destruct hex_data as [|? hex_data]; [simpl in Hlen; lia|]).
  by destruct hex_data.
Qed.

Lemma example_excerpts_witness :
  String.substring 20 2 (String.substring 16 24 Decode40.hex_data) =
  String.substring 36 2 Decode40.hex_data.
Proof.
  apply (example_excerpts Decode40.hex_data). vm_compute. lia.
Defined.

(** An envelope match whose payload is hex text that [bytes.fromhex]
    accepts has at least 10 bytes, and the header block decodes it to a
    frame with sync 0x7e, version 0x03 and first payload byte 0x01. *)
Theorem envelope_match_decodes (m : msg) (raw : list byte) :
  is_envelope m = true ->
  is_hex (payload_hex m) = true ->
  fromhex (payload_hex m) = Ok raw ->
  (10 <= List.length raw)%nat /\
  exists f,
    Decode40.decode raw = Ok f /\
    Decode40.sync f = "~"%byte /\ Decode40.version f = x03 /\
    Decode40.payload f !! 0%nat = Some x01.
Proof.
  intros Henv Hhex Hraw.
  apply is_envelope_iff in Henv as (Hlen & [rest Hpre] & H16 & H17).
  destruct (payload_hex m) as [|c0 [|c1 [|c2 [|c3 s]]]]; try done.
  injection Hpre as -> -> -> -> Hs. clear Hs.
  do 16 (destruct s as [|? s]; [simpl in Hlen; lia|]).
  cbn in H16, H17. injection H16 as ->. injection H17 as ->.
  repeat match goal with
  | H : is_hex (String _ _) = true |- _ =>
      apply is_hex_cons in H as [[? ?] H]
  end.
  repeat match goal with
  | H : hex_digit (Ascii _ _ _ _ _ _ _ _) = Some _ |- _ => clear H
  end.
  assert (hex_digit "7" = Some 7%N) as D7 by reflexivity.
  assert (hex_digit "e" = Some 14%N) as De by reflexivity.
  assert (hex_digit "0" = Some 0%N) as D0 by reflexivity.
  assert (hex_digit "3" = Some 3%N) as D3 by reflexivity.
  assert (hex_digit "1" = Some 1%N) as D1 by reflexivity.
  repeat match goal with
  | Ha : hex_digit ?a = Some ?hi, Hb : hex_digit ?b = Some ?lo,
    H : context [fromhex (String ?a (String ?b ?t))] |- _ =>
      rewrite (fromhex_pair a b hi lo t Ha Hb) in H
  end.
  unfold mbind, result_bind in Hraw.
  destruct (fromhex s) as [tail|e]; cbn in Hraw; [|done].
  injection Hraw as <-. split; [simpl; lia|].
  eexists. split; [reflexivity|]. by repeat split.
Qed.

Lemma envelope_match_decodes_witness :
  exists f,
    Decode40.decode
      ["~"%byte; x03; x00; x00; x00; x00; x02; x00; x01; x00] = Ok f /\
    Decode40.payload f !! 0%nat = Some x01.
Proof.
  destruct (envelope_match_decodes (mkMsg 10 "7e030000000002000100" 1)
              ["~"%byte; x03; x00; x00; x00; x00; x02; x00; x01; x00]
              eq_refl eq_refl eq_refl)
    as (_ & f & Hdec & _ & _ & Hp).
  exists f. split; [exact Hdec | exact Hp].
Defined.

End EnvelopeMore.

(** ** The 77-byte messages *)

Section SpecialMore.
Import Inventory.

Lemma size_patterns (ks : list string) :
  size (list_to_set ks : gset string) = List.length (Counter ks).
Proof.
  assert ((list_to_set ks : gset string) = list_to_set (Counter ks).*1) as ->.
  { apply set_eq. intros k. rewrite !elem_of_list_to_set.
    pose proof (foldl_counter_keys ks [] NoDup_nil_2) as [_ Hin].
    unfold Counter. rewrite Hin, elem_of_nil. naive_solver. }
  rewrite size_list_to_set by apply NoDup_Counter. by rewrite length_fmap.
Qed.

Lemma lookup_group (msgs : list msg) (k : Z) :
  match group_by_length msgs !! k with
  | None => forall m, m ∈ msgs -> payload_length m <> k
  | Some bucket => bucket = filter (fun m => payload_length m = k) msgs /\ bucket <> []
  end.
Proof.
  pose proof (getitem_group msgs k) as Hg. unfold getitem in Hg.
  pose proof (dom_group msgs) as Hdom.
  destruct (group_by_length msgs !! k) as [bucket|] eqn:Hk; cbn in Hg.
  - split; [done|]. apply elem_of_dom_2 in Hk.
    rewrite Hdom, elem_of_list_to_set, list_elem_of_fmap in Hk.
    destruct Hk as (m & -> & Hm). rewrite Hg. intros Hnil.
    assert (m ∈ filter (fun m' => payload_length m' = payload_length m) msgs) as Hin
      by by apply list_elem_of_filter.
    rewrite Hnil in Hin. by apply elem_of_nil in Hin.
  - intros m Hm Hpl. apply not_elem_of_dom in Hk. apply Hk.
    rewrite Hdom, elem_of_list_to_set, list_elem_of_fmap. by exists m.
Qed.

(** The 77-byte section is skipped exactly when no record has
    [payload_length] 77.  Otherwise it reports the size of that bucket
    and as many unique patterns as the analysis of that length counts.
    It says "all identical" exactly when all these records carry one
    payload, which it then shows with their message numbers in input
    order and whether all of them are 1; else it shows the set of the
    payloads that occur, which has at least 2 members. *)
Theorem special_interest_77_spec (msgs : list msg) :
  let bucket := filter (fun m => payload_length m = 77%Z) msgs in
  match special_interest_77 (group_by_length msgs) with
  | None => bucket = []
  | Some r =>
      bucket <> [] /\
      found_77 r = List.length bucket /\
      unique_77 r = unique_count bucket /\
      match verdict r with
      | AllIdentical hex msg_nums all_first =>
          exists p, hex = Some p /\
                    Forall (fun m => payload_hex m = p) bucket /\
                    msg_nums = message_num <$> bucket /\
                    (all_first = true <-> Forall (fun m => message_num m = 1%Z) bucket)
      | Differing patterns =>
          (2 <= size patterns)%nat /\
          forall p, p ∈ patterns <-> exists m, m ∈ bucket /\ payload_hex m = p
      end
  end.
Proof.
  intros bucket. unfold special_interest_77.
  pose proof (lookup_group msgs 77) as Hl.
  destruct (group_by_length msgs !! 77%Z) as [msgs_77|].
  - destruct Hl as [-> Hne]. fold bucket in Hne |- *.
    cbn [found_77 unique_77 verdict].
    split; [done|]. split; [done|]. split; [apply size_patterns|].
    assert (forall p, p ∈ (list_to_set (payload_hex <$> bucket) : gset string) <->
                      exists m, m ∈ bucket /\ payload_hex m = p) as Hmem.
    { intros p. rewrite elem_of_list_to_set, list_elem_of_fmap. naive_solver. }
    destruct (decide (size (list_to_set (payload_hex <$> bucket) : gset string) = 1%nat))
      as [Hone|Hmany].
    + apply size_1_elem_of in Hone as [p Hp]. apply leibniz_equiv in Hp.
      exists p. rewrite Hp, elements_singleton. split; [done|]. split; [|split; [done|]].
      * apply Forall_forall. intros m Hm.
        assert (payload_hex m ∈ (list_to_set (payload_hex <$> bucket) : gset string)) as Hin
          by (apply Hmem; by exists m).
        rewrite Hp in Hin. by apply elem_of_singleton in Hin.
      * rewrite <- Is_true_true, forallb_True, Forall_fmap.
        apply Forall_iff. intros m. cbn. rewrite Is_true_true. apply Z.eqb_eq.
    + split; [|exact Hmem].
      assert (size (list_to_set (payload_hex <$> bucket) : gset string) <> 0%nat) as Hpos.
      { rewrite size_non_empty_iff. intros Hempty.
        destruct bucket as [|m rest]; [done|].
        assert (payload_hex m ∈ (list_to_set (payload_hex <$> m :: rest) : gset string))
          as Hin by (apply Hmem; exists m; split; [left | done]).
        rewrite Hempty in Hin. by apply not_elem_of_empty in Hin. }
      lia.
  - destruct bucket as [|m rest] eqn:Hb; [done|].
    assert (m ∈ filter (fun m => payload_length m = 77%Z) msgs) as Hin
      by (fold bucket; rewrite Hb; left).
    apply list_elem_of_filter in Hin as [Hpl Hin]. by destruct (Hl m Hin).
Qed.

End SpecialMore.
